(** * Social-media microservices: gateway mediation, cache invalidation
      and event propagation

    A shallow embedding of the request handlers of the five services
    (api-gateway, identity-service, post-service, media-service) and
    the properties their specification states about them.

    Handlers are [async] JavaScript functions.  They are embedded as
    programs over the calls they make: a call that the source awaits is a
    suspension point of the handler ([Await]), a call that returns at once
    ([logger.info], [res.status(..).json(..)], [new Date()]) is not
    ([Sync]).  A service interprets both kinds of call on its own state. *)

From Stdlib Require Import ZArith List String Ascii Bool Lia.
From stdpp Require Import base option list strings pretty gmap fin_maps.

Set Warnings "-register-all".
Local Open Scope Z_scope.

(** ** JavaScript values common to all services *)

Module Js.

(** JSON documents: request bodies, response bodies, event payloads
    and the documents whose text Redis holds. *)
Inductive json : Type :=
| JNull
| JBool (b : bool)
| JNum (z : Z)
| JStr (s : string)
| JArr (items : list json)
| JObj (fields : list (string * json)).

(** [obj[key]], [None] for [undefined]. *)
Fixpoint field (key : string) (fields : list (string * json)) : option json :=
  match fields with
  | [] => None
  | (k, v) :: rest => if String.eqb k key then Some v else field key rest
  end.

Definition double_quote : ascii := ascii_of_nat 34.
Definition quote (s : string) : string :=
  String double_quote (s +:+ String double_quote "").

Definition join (sep : string) (parts : list string) : string :=
  match parts with
  | [] => ""
  | p :: ps => fold_left (fun acc q => acc +:+ sep +:+ q) ps p
  end.

(** [JSON.stringify]; escaping inside string literals is left out. *)
Fixpoint stringify (j : json) : string :=
  match j with
  | JNull => "null"
  | JBool true => "true"
  | JBool false => "false"
  | JNum z => pretty z
  | JStr s => quote s
  | JArr items => "[" +:+ join "," (map stringify items) +:+ "]"
  | JObj fields =>
      "{" +:+ join "," (map (fun kv => quote (fst kv) +:+ ":" +:+ stringify (snd kv)) fields)
          +:+ "}"
  end.

(** An HTTP response as the handlers build it:
    [res.status(s).json(b)]; [res.json(b)] leaves the status at 200. *)
Record response : Type := Response { status : Z; body : json }.

(** A thrown [Error]: its [message] and, where the thrower sets one, its
    HTTP [status] (body-parser errors carry 400). *)
Record error : Type := Error { message : string; err_status : option Z }.

(** The result of a call that may throw (a promise that may reject). *)
Inductive outcome (A : Type) : Type :=
| Ok (a : A)
| Thrown (e : error).
Arguments Ok {A} a.
Arguments Thrown {A} e.

Inductive level : Type := Info | Warn | Err.

(** The uniform error body of the specification:
    an object with exactly the members [success: false] and
    [message: <string>], in any order. *)
Definition error_shape (b : json) : bool :=
  match b with
  | JObj fields =>
      (length fields =? 2)%nat &&
      match field "success" fields, field "message" fields with
      | Some (JBool false), Some (JStr _) => true
      | _, _ => false
      end
  | _ => false
  end.

(** [s.startsWith(p)] *)
Definition startsWith (p s : string) : bool := String.prefix p s.

(** [ObjectId.toString()]: 24 hexadecimal digits. *)
Definition hex_digit (n : N) : ascii :=
  nth (N.to_nat n) (list_ascii_of_string "0123456789abcdef") "0"%char.
Fixpoint hex_fixed (digits : nat) (n : N) (acc : string) : string :=
  match digits with
  | O => acc
  | S d => hex_fixed d (n / 16)%N (String (hex_digit (n mod 16)%N) acc)
  end.
Definition ObjectId (n : N) : string := hex_fixed 24 n "".
Global Arguments ObjectId : simpl never.

End Js.
Export Js.

(** ** Asynchronous programs *)

Module Async.

Section Programs.
(** [sync A]: calls that return an [A] without suspending;
    [eff A]: awaited calls, resolving to an [A] or rejecting. *)
Context {sync eff : Type -> Type}.

Inductive prog (R : Type) : Type :=
| Ret (r : R)
| Throw (e : error)
| Sync {A : Type} (c : sync A) (k : A -> prog R)
| Await {A : Type} (c : eff A) (k : outcome A -> prog R).

Arguments Ret {R} r.
Arguments Throw {R} e.
Arguments Sync {R A} c k.
Arguments Await {R A} c k.

Fixpoint bind {A B} (p : prog A) (f : A -> prog B) : prog B :=
  match p with
  | Ret a => f a
  | Throw e => Throw e
  | Sync c k => Sync c (fun x => bind (k x) f)
  | Await c k => Await c (fun o => bind (k o) f)
  end.

(** [try { p } catch (e) { h e }] *)
Fixpoint try_catch {A} (p : prog A) (h : error -> prog A) : prog A :=
  match p with
  | Ret a => Ret a
  | Throw e => h e
  | Sync c k => Sync c (fun x => try_catch (k x) h)
  | Await c k => Await c (fun o => try_catch (k o) h)
  end.

(** [c(...)] for a call that returns at once *)
Definition call {A} (c : sync A) : prog A := Sync c Ret.

(** [await c(...)]: a rejection is rethrown where the await stands. *)
Definition await {A} (c : eff A) : prog A :=
  Await c (fun o => match o with Ok a => Ret a | Thrown e => Throw e end).

(** [for (const x of xs) { body x }] *)
Fixpoint for_of {A} (xs : list A) (body : A -> prog unit) : prog unit :=
  match xs with
  | [] => Ret tt
  | x :: rest => bind (body x) (fun _ => for_of rest body)
  end.

(** *** Running a program on the state of a service *)
Section Run.
Context {W : Type}.
(** Both interpreters learn which request makes the call. *)
Variable do_sync : forall A, nat -> sync A -> W -> A * W.
Variable do_eff : forall A, nat -> eff A -> W -> outcome A * W.

(** One request handled from start to end with nothing else in flight. *)
Fixpoint run {R} (rid : nat) (p : prog R) (w : W) : outcome R * W :=
  match p with
  | Ret r => (Ok r, w)
  | Throw e => (Thrown e, w)
  | Sync c k => let '(a, w') := do_sync _ rid c w in run rid (k a) w'
  | Await c k => let '(o, w') := do_eff _ rid c w in run rid (k o) w'
  end.

(** Several requests in flight: a handler runs without interruption
    up to its next [await] and is resumed when the awaited call has
    been carried out. *)
Fixpoint settle {R} (rid : nat) (p : prog R) (w : W) : prog R * W :=
  match p with
  | Sync c k => let '(a, w') := do_sync _ rid c w in settle rid (k a) w'
  | _ => (p, w)
  end.

Definition resume {R} (rid : nat) (p : prog R) (w : W) : prog R * W :=
  match p with
  | Await c k => let '(o, w') := do_eff _ rid c w in settle rid (k o) w'
  | _ => (p, w)
  end.

Inductive command : Type :=
| Arrive (rid : nat) (handler : prog unit)
| Resume (rid : nat).

Definition in_flight : Type := list (nat * prog unit).

Fixpoint resume_in (rid : nat) (pool : in_flight) (w : W) : in_flight * W :=
  match pool with
  | [] => ([], w)
  | (r, p) :: rest =>
      if Nat.eqb r rid
      then let '(p', w') := resume rid p w in ((r, p') :: rest, w')
      else let '(rest', w') := resume_in rid rest w in ((r, p) :: rest', w')
  end.

Definition schedule1 (c : command) (st : in_flight * W) : in_flight * W :=
  match c with
  | Arrive rid h => let '(p, w') := settle rid h (snd st) in (fst st ++ [(rid, p)], w')
  | Resume rid => resume_in rid (fst st) (snd st)
  end.

Definition schedule (cs : list command) (st : in_flight * W) : in_flight * W :=
  fold_left (fun s c => schedule1 c s) cs st.

(** The handler has returned or thrown. *)
Definition finished {R} (p : prog R) : bool :=
  match p with
  | Ret _ | Throw _ => true
  | _ => false
  end.
End Run.
End Programs.

Arguments prog : clear implicits.
Arguments Ret {sync eff R} r.
Arguments Throw {sync eff R} e.
Arguments Sync {sync eff R A} c k.
Arguments Await {sync eff R A} c k.
Arguments command : clear implicits.
Arguments in_flight : clear implicits.

Declare Scope prog_scope.
Delimit Scope prog_scope with prog.
Notation "x <- p ;; q" := (bind p (fun x => q))
  (at level 100, p at next level, right associativity) : prog_scope.
Notation "p ;; q" := (bind p (fun _ => q))
  (at level 100, right associativity) : prog_scope.

(** *** The calls a program can reach *)
Section Calls.
Context {sync eff : Type -> Type}.

(** Every awaited call the program can reach, whatever the calls before
    it returned, satisfies [P]. *)
Fixpoint all_calls (P : forall A, eff A -> Prop) {R} (p : prog sync eff R) : Prop :=
  match p with
  | Ret _ | Throw _ => True
  | Sync c k => forall a, all_calls P (k a)
  | Await c k => P _ c /\ forall o, all_calls P (k o)
  end.
End Calls.

End Async.
Export Async.

(** ** post-service *)

Module PostService.

(** A document of the [Post] collection. [_id] and [user] are ObjectIds,
    kept in the 24-digit text form the controllers handle them in. *)
Record post : Type := Post {
  _id : string;
  user : string;
  content : string;
  mediaIds : list string;
  createdAt : Z
}.

Definition post_json (p : post) : json :=
  JObj [("_id", JStr (_id p)); ("user", JStr (user p)); ("content", JStr (content p));
        ("mediaIds", JArr (map JStr (mediaIds p))); ("createdAt", JNum (createdAt p))].

(** [req.body] of [POST /create-post] *)
Record create_body : Type := CreateBody {
  body_content : string;
  body_mediaIds : option (list string)
}.

(** The parts of the Express request the controllers read.
    [query_page] and [query_limit] hold [parseInt(req.query.page)] and
    [parseInt(req.query.limit)], [None] standing for [NaN]. *)
Record request : Type := Request {
  body : create_body;
  user_userId : string;
  params_id : string;
  query_page : option Z;
  query_limit : option Z
}.

(** *** The calls the controllers make *)

Inductive sync : Type -> Type :=
| Log (l : level) (m : string) : sync unit
| Respond (r : response) : sync unit
| NewPost (user content : string) (mediaIds : list string) : sync post.

Inductive eff : Type -> Type :=
| RedisGet (key : string) : eff (option json)
| RedisSetex (key : string) (seconds : Z) (doc : json) : eff unit
| RedisKeys (pattern : string) : eff (list string)
| RedisDel (keys : list string) : eff unit
| PostSave (p : post) : eff post
| PostFindById (id : string) : eff (option post)
| PostFindOneAndDelete (id user : string) : eff (option post)
| PostFindSortSkipLimit (skip limit : Z) : eff (list post)
| PostCountDocuments : eff Z
| PublishEvent (routingKey : string) (payload : json) : eff unit.

Definition program : Type -> Type := prog sync eff.

Definition respond (st : Z) (b : json) : program unit := call (Respond (Response st b)).
Definition logger (l : level) (m : string) : program unit := call (Log l m).

(** JavaScript truthiness of a string and of the reply to [GET]
    ([null], or the stored text, which is never empty). *)
Definition truthy_string (s : string) : bool := negb (String.eqb s "").
Definition truthy (reply : option json) : bool :=
  match reply with Some _ => true | None => false end.

(** [JSON.parse] of the reply to [GET]. *)
Definition JSON_parse (reply : option json) : json :=
  match reply with Some doc => doc | None => JNull end.

(** ioredis sends every command argument as a string: [null] and
    [undefined] become the empty string, a string goes as it is. *)
Definition redis_arg (v : option json) : string :=
  match v with None => "" | Some doc => stringify doc end.

(** [x || d] on the result of [parseInt]: [NaN] and [0] are falsy. *)
Definition or_default (x : option Z) (d : Z) : Z :=
  match x with
  | Some z => if z =? 0 then d else z
  | None => d
  end.

(** [Math.ceil(a / b)] *)
Definition ceil_div (a b : Z) : Z := - ((- a) / b).

Section Controllers.
(** [validateCreatePost] of [utils/validation.js]: the message of the
    first violation, if any. *)
Variable validateCreatePost : create_body -> option string.

Local Open Scope prog_scope.

Definition invalidatePostCache (postId : string) : program unit :=
  (if truthy_string postId
   then await (RedisDel ["post:" +:+ postId])
   else Ret tt) ;;
  keys <- await (RedisKeys "posts:*") ;;
  if (0 <? length keys)%nat
  then await (RedisDel keys)
  else Ret tt.

Definition createPost (req : request) : program unit :=
  logger Info "Create Post endpoint hit" ;;
  try_catch
    (match validateCreatePost (body req) with
     | Some msg =>
         logger Warn "Validation error" ;;
         respond 400 (JObj [("success", JBool false); ("message", JStr msg)])
     | None =>
         let content := body_content (body req) in
         let mediaIds := body_mediaIds (body req) in
         let userId := user_userId req in
         newlyCreatedPost <- call (NewPost userId content (default [] mediaIds)) ;;
         newlyCreatedPost <- await (PostSave newlyCreatedPost) ;;
         await (PublishEvent "post.created"
                  (JObj [("postId", JStr (_id newlyCreatedPost));
                         ("userId", JStr (user newlyCreatedPost));
                         ("content", JStr (PostService.content newlyCreatedPost));
                         ("createdAt", JNum (createdAt newlyCreatedPost))])) ;;
         invalidatePostCache (_id newlyCreatedPost) ;;
         logger Info "Post created successfully" ;;
         respond 201 (JObj [("success", JBool true);
                            ("message", JStr "Post created successfully")])
     end)
    (fun e =>
       logger Err "Error creating post" ;;
       respond 500 (JObj [("success", JBool false);
                          ("message", JStr "Error at creating post")])).

Definition getAllPosts (req : request) : program unit :=
  logger Info "Get All Post endpoint hit" ;;
  try_catch
    (let page := or_default (query_page req) 1 in
     let limit := or_default (query_limit req) 10 in
     let startIndex := (page - 1) * limit in
     let cacheKey := "posts:" +:+ pretty page +:+ ":" +:+ pretty limit in
     cachedPost <- await (RedisGet cacheKey) ;;
     if truthy cachedPost
     then
       logger Info "Serving posts from Redis cache" ;;
       respond 200 (JSON_parse cachedPost)
     else
       logger Info "Cache miss -> fetching posts from MongoDB" ;;
       posts <- await (PostFindSortSkipLimit startIndex limit) ;;
       totalNoOfPost <- await PostCountDocuments ;;
       let result :=
         JObj [("posts", JArr (map post_json posts));
               ("currentpage", JNum page);
               ("totalPages", JNum (ceil_div totalNoOfPost limit));
               ("totalPost", JNum totalNoOfPost)] in
       await (RedisSetex cacheKey 300 result) ;;
       logger Info "Posts cached in Redis" ;;
       respond 200 result)
    (fun e =>
       logger Err "Error fetching post" ;;
       respond 500 (JObj [("success", JBool false);
                          ("message", JStr "Error at fetching post")])).

Definition getPost (req : request) : program unit :=
  logger Info "Get single Post endpoint hit" ;;
  try_catch
    (let postId := params_id req in
     let cacheKey := "post:" +:+ postId in
     cachedPost <- await (RedisGet cacheKey) ;;
     if truthy cachedPost
     then
       logger Info "Serving post from Redis cache" ;;
       respond 200 (JSON_parse cachedPost)
     else
       logger Info "Cache miss -> fetching post from MongoDB" ;;
       singlePost <- await (PostFindById postId) ;;
       match singlePost with
       | None =>
           respond 404 (JObj [("message", JStr "Post not found"); ("success", JBool false)])
       | Some singlePost =>
           await (RedisSetex (redis_arg cachedPost) 3600 (post_json singlePost)) ;;
           respond 200 (JObj [("singlePost", post_json singlePost)])
       end)
    (fun e =>
       logger Err "Error fetching post" ;;
       respond 500 (JObj [("success", JBool false);
                          ("message", JStr "Error at fetching post")])).

Definition deletePost (req : request) : program unit :=
  logger Info "Delete Post endpoint hit" ;;
  try_catch
    (post <- await (PostFindOneAndDelete (params_id req) (user_userId req)) ;;
     match post with
     | None =>
         respond 404 (JObj [("message", JStr "Post not found"); ("success", JBool false)])
     | Some post =>
         await (PublishEvent "post.deleted"
                  (JObj [("postId", JStr (_id post));
                         ("userId", JStr (user_userId req));
                         ("mediaIds", JArr (map JStr (mediaIds post)))])) ;;
         invalidatePostCache (params_id req) ;;
         respond 200 (JObj [("success", JBool true);
                            ("message", JStr "Post deleted successfully")])
     end)
    (fun e =>
       logger Err "Error Deleting post" ;;
       respond 500 (JObj [("success", JBool false);
                          ("message", JStr "Error at Deleting post")])).
End Controllers.

(** *** The state the controllers act on *)

(** What Redis holds under a key: the document whose text was stored,
    and the expiry it was stored with ([SETEX key seconds text]). *)
Record entry : Type := Entry { doc : json; seconds : Z }.

(** What a handler does that can be observed from outside, in order. *)
Inductive event : Type :=
| Logged (l : level) (m : string)
| Responded (r : response)
| Called {A : Type} (c : eff A).

Record world : Type := World {
  mongo_up : bool;                (* MongoDB reachable *)
  redis_up : bool;                (* Redis reachable *)
  posts : list post;              (* the Post collection, in insertion order *)
  redis : gmap string entry;
  next_oid : N;                   (* source of fresh ObjectIds *)
  now : Z;                        (* Date.now() *)
  broker_up : bool;               (* RabbitMQ channel open *)
  published : list (string * json);  (* messages the exchange accepted, oldest first *)
  trace : list (nat * event)      (* per request id, oldest first *)
}.

Definition with_posts (ps : list post) (w : world) : world :=
  let 'World mu ru _ r n t bu q tr := w in World mu ru ps r n t bu q tr.
Definition with_redis (r : gmap string entry) (w : world) : world :=
  let 'World mu ru ps _ n t bu q tr := w in World mu ru ps r n t bu q tr.
Definition with_next_oid (n : N) (w : world) : world :=
  let 'World mu ru ps r _ t bu q tr := w in World mu ru ps r n t bu q tr.
Definition with_published (q : list (string * json)) (w : world) : world :=
  let 'World mu ru ps r n t bu _ tr := w in World mu ru ps r n t bu q tr.
Definition note (rid : nat) (e : event) (w : world) : world :=
  let 'World mu ru ps r n t bu q tr := w in World mu ru ps r n t bu q (tr ++ [(rid, e)]).

(** Redis glob patterns with [*] and [?]; classes and escapes, which
    no pattern of the service uses, are left out. *)
Fixpoint glob (pattern : string) : string -> bool :=
  match pattern with
  | "" => fun s => String.eqb s ""
  | String c rest =>
      if Ascii.eqb c "*" then
        fix star (s : string) : bool :=
          glob rest s || match s with "" => false | String _ s' => star s' end
      else if Ascii.eqb c "?" then
        fun s => match s with "" => false | String _ s' => glob rest s' end
      else
        fun s => match s with "" => false | String d s' => Ascii.eqb c d && glob rest s' end
  end.

(** [.sort({createdAt: -1})] *)
Fixpoint insert_desc (p : post) (l : list post) : list post :=
  match l with
  | [] => [p]
  | q :: r => if createdAt q <=? createdAt p then p :: l else q :: insert_desc p r
  end.
Definition sort_desc (l : list post) : list post := foldr insert_desc [] l.

Definition matches (id owner : string) (p : post) : bool :=
  String.eqb (_id p) id && String.eqb (user p) owner.

(** Removes the first document the filter selects. *)
Fixpoint remove_first (f : post -> bool) (l : list post) : list post :=
  match l with
  | [] => []
  | p :: r => if f p then r else p :: remove_first f r
  end.

Definition mongo_error : error := Error "MongoNetworkError: connection closed" None.
Definition redis_error : error := Error "Connection is closed." None.
Definition broker_error : error := Error "Channel closed" None.

Definition do_sync (A : Type) (rid : nat) (c : sync A) (w : world) : A * world :=
  match c in sync A return A * world with
  | Log l m => (tt, note rid (Logged l m) w)
  | Respond r => (tt, note rid (Responded r) w)
  | NewPost u c m =>
      (Post (ObjectId (next_oid w)) u c m 0, with_next_oid (N.succ (next_oid w)) w)
  end.

(** Carrying out an awaited call.  A store that is not reachable rejects
    the call and changes nothing; [publishEvent] is modelled after the
    specification of the event client (see below). *)
Definition act (A : Type) (c : eff A) (w : world) : outcome A * world :=
  match c in eff A return outcome A * world with
  | RedisGet key =>
      if redis_up w then (Ok (doc <$> redis w !! key), w) else (Thrown redis_error, w)
  | RedisSetex key s d =>
      if redis_up w then (Ok tt, with_redis (<[key := Entry d s]> (redis w)) w)
      else (Thrown redis_error, w)
  | RedisKeys pattern =>
      if redis_up w then (Ok (filter (fun k => glob pattern k = true) (map fst (map_to_list (redis w)))), w)
      else (Thrown redis_error, w)
  | RedisDel keys =>
      if redis_up w then (Ok tt, with_redis (foldr delete (redis w) keys) w)
      else (Thrown redis_error, w)
  | PostSave p =>
      if mongo_up w
      then let saved := Post (_id p) (user p) (content p) (mediaIds p) (now w) in
           (Ok saved, with_posts (posts w ++ [saved]) w)
      else (Thrown mongo_error, w)
  | PostFindById id =>
      if mongo_up w then (Ok (List.find (fun p => String.eqb (_id p) id) (posts w)), w)
      else (Thrown mongo_error, w)
  | PostFindOneAndDelete id owner =>
      if mongo_up w
      then (Ok (List.find (matches id owner) (posts w)),
            with_posts (remove_first (matches id owner) (posts w)) w)
      else (Thrown mongo_error, w)
  | PostFindSortSkipLimit skip limit =>
      if mongo_up w && (0 <=? skip)
      then (Ok (take (Z.to_nat (Z.abs limit)) (drop (Z.to_nat skip) (sort_desc (posts w)))), w)
      else (Thrown mongo_error, w)
  | PostCountDocuments =>
      if mongo_up w then (Ok (Z.of_nat (length (posts w))), w) else (Thrown mongo_error, w)
  | PublishEvent routingKey payload =>
      (* Modelled from the spec: see [publishEvent] *)
      if broker_up w then (Ok tt, with_published (published w ++ [(routingKey, payload)]) w)
      else (Thrown broker_error, w)
  end.

Definition do_eff (A : Type) (rid : nat) (c : eff A) (w : world) : outcome A * world :=
  act A c (note rid (Called c) w).

(** Modelled from the spec: [publishEvent] of [utils/rabbitmq.js], which
    is not among the sources.  "publish(topic, payload) -> outcome";
    "until reconnected, publish calls fail fast": with the channel open the
    broker accepts the message under its routing key, otherwise the call
    throws. *)
Definition publishEvent (routingKey : string) (payload : json) (w : world)
  : outcome unit * world :=
  act unit (PublishEvent routingKey payload) w.

(** A request handled with no other request in flight. *)
Definition handle (rid : nat) (h : program unit) (w : world) : world :=
  snd (run do_sync do_eff rid h w).

(** Requests in flight together, driven by a schedule. *)
Definition interleave (cs : list (command sync eff)) (w : world)
  : in_flight sync eff * world :=
  schedule do_sync do_eff cs ([], w).

(** The responses sent to request [rid]. *)
Definition responses (rid : nat) (w : world) : list response :=
  omap (fun re => match re with
                  | (r, Responded x) => if Nat.eqb r rid then Some x else None
                  | _ => None
                  end) (trace w).

(** *** Vocabulary of the properties *)

(** The two mutating writes, the id each mutates, and what each answers
    on success and in its [catch] block. *)
Inductive write : Type := CreatePost | DeletePost.

Definition write_handler (validate : create_body -> option string)
    (op : write) (req : request) : program unit :=
  match op with
  | CreatePost => createPost validate req
  | DeletePost => deletePost req
  end.


Definition success (op : write) : response :=
  match op with
  | CreatePost => Response 201 (JObj [("success", JBool true);
                                      ("message", JStr "Post created successfully")])
  | DeletePost => Response 200 (JObj [("success", JBool true);
                                      ("message", JStr "Post deleted successfully")])
  end.

Definition failure (op : write) : response :=
  match op with
  | CreatePost => Response 500 (JObj [("success", JBool false);
                                      ("message", JStr "Error at creating post")])
  | DeletePost => Response 500 (JObj [("success", JBool false);
                                      ("message", JStr "Error at Deleting post")])
  end.

Definition failure_log (op : write) : event :=
  match op with
  | CreatePost => Logged Err "Error creating post"
  | DeletePost => Logged Err "Error Deleting post"
  end.

(** The request passes the checks that precede the write to the store. *)
Definition accepted (validate : create_body -> option string)
    (op : write) (req : request) (w : world) : bool :=
  match op with
  | CreatePost => bool_decide (validate (body req) = None)
  | DeletePost =>
      bool_decide (is_Some (List.find (matches (params_id req) (user_userId req)) (posts w)))
  end.

(** The collection once the write has been applied to it. *)
Definition applied (op : write) (req : request) (w : world) : list post :=
  match op with
  | CreatePost =>
      posts w ++ [Post (ObjectId (next_oid w)) (user_userId req) (body_content (body req))
                       (default [] (body_mediaIds (body req))) (now w)]
  | DeletePost => remove_first (matches (params_id req) (user_userId req)) (posts w)
  end.

(** What the store itself answers to the two reads. *)
Definition store_post (ps : list post) (id : string) : response :=
  match List.find (fun p => String.eqb (_id p) id) ps with
  | Some p => Response 200 (JObj [("singlePost", post_json p)])
  | None => Response 404 (JObj [("message", JStr "Post not found"); ("success", JBool false)])
  end.

Definition not_found : response :=
  Response 404 (JObj [("message", JStr "Post not found"); ("success", JBool false)]).

(** The message [deletePost] publishes for the post it removed. *)
Definition post_deleted (p : post) : string * json :=
  ("post.deleted", JObj [("postId", JStr (_id p)); ("userId", JStr (user p));
                         ("mediaIds", JArr (map JStr (mediaIds p)))]).

(** What [invalidatePostCache] leaves of the cache. *)
Definition invalidated (id : string) (m : gmap string entry) : gmap string entry :=
  let m1 := delete ("post:" +:+ id) m in
  foldr delete m1 (filter (fun k => glob "posts:*" k = true) (map fst (map_to_list m1))).


(** The routes of [routes/post-routes.js], each with its controller. *)
Inductive route : Type := POST_create_post | GET_all_posts | GET_id | DELETE_id.

Definition controller (validate : create_body -> option string)
    (r : route) (req : request) : program unit :=
  match r with
  | POST_create_post => createPost validate req
  | GET_all_posts => getAllPosts req
  | GET_id => getPost req
  | DELETE_id => deletePost req
  end.

(** Requests handled one after the other, each with its request id. *)
Definition handle_all (validate : create_body -> option string)
    (calls : list (nat * route * request)) (w : world) : world :=
  fold_left (fun w c => handle (fst (fst c)) (controller validate (snd (fst c)) (snd c)) w)
            calls w.


(** The cache holds nothing under a key of the [post:] family. *)
Definition no_single_post (m : gmap string entry) : Prop :=
  forall key, startsWith "post:" key = true -> m !! key = None.

(** A call that writes no key of the [post:] family. *)
Definition writes_no_single_post (A : Type) (c : eff A) : Prop :=
  match c with
  | RedisSetex key _ _ => startsWith "post:" key = false
  | _ => True
  end.

(** The post [createPost] makes of a request, and the message it
    publishes for it. *)
Definition new_post (req : request) (w : world) : post :=
  Post (ObjectId (next_oid w)) (user_userId req) (body_content (body req))
       (default [] (body_mediaIds (body req))) (now w).

Definition post_created (p : post) : string * json :=
  ("post.created", JObj [("postId", JStr (_id p)); ("userId", JStr (user p));
                         ("content", JStr (content p)); ("createdAt", JNum (createdAt p))]).

(** What a write that passed its checks hands to the publisher. *)
Definition announcement (op : write) (req : request) (w : world) : list (string * json) :=
  match op with
  | CreatePost => [post_created (new_post req w)]
  | DeletePost =>
      match List.find (matches (params_id req) (user_userId req)) (posts w) with
      | Some p => [("post.deleted",
                    JObj [("postId", JStr (_id p)); ("userId", JStr (user_userId req));
                          ("mediaIds", JArr (map JStr (mediaIds p)))])]
      | None => []
      end
  end.

End PostService.

(** ** media-service: the consumer of [post.deleted] *)

Module MediaService.

(** A document of the [Media] collection. *)
Record media : Type := Media {
  _id : string;
  publicId : string;
  originalName : string;
  mimeType : string;
  url : string;
  userId : string
}.

(** The payload of a [post.deleted] message. *)
Record post_deleted : Type := PostDeleted {
  postId : string;
  mediaIds : list string
}.

Inductive sync : Type -> Type :=
| Log (l : level) (m : string) : sync unit.

Inductive eff : Type -> Type :=
| MediaFindIn (ids : list string) : eff (list media)
| DeleteMediaFromCloudinary (publicId : string) : eff unit
| MediaFindByIdAndDelete (id : string) : eff (option media).

Definition program : Type -> Type := prog sync eff.
Definition logger (l : level) (m : string) : program unit := call (Log l m).

Local Open Scope prog_scope.

Definition handlePostDeleted (event : post_deleted) : program unit :=
  let postId := postId event in
  let mediaIds := mediaIds event in
  try_catch
    (mediaToDelete <- await (MediaFindIn mediaIds) ;;
     for_of mediaToDelete (fun media =>
       await (DeleteMediaFromCloudinary (publicId media)) ;;
       await (MediaFindByIdAndDelete (_id media)) ;;
       logger Info ("Deleted media " +:+ _id media +:+
                    " associated with this deleted post " +:+ postId)) ;;
     logger Info "Processed deletion of media for post id")
    (fun e => logger Err "Error occured while media deletion").

Inductive event : Type :=
| Logged (l : level) (m : string)
| Called {A : Type} (c : eff A).

Record world : Type := World {
  mongo_up : bool;
  medias : list media;            (* the Media collection, in insertion order *)
  doc_faults : gset string;       (* ids whose record MongoDB fails to delete *)
  blobs : gset string;            (* public ids Cloudinary holds *)
  blob_faults : gset string;      (* public ids Cloudinary fails to delete *)
  trace : list event
}.

Definition note (e : event) (w : world) : world :=
  let 'World mu ms df bs bf tr := w in World mu ms df bs bf (tr ++ [e]).
Definition with_medias (ms : list media) (w : world) : world :=
  let 'World mu _ df bs bf tr := w in World mu ms df bs bf tr.
Definition with_blobs (bs : gset string) (w : world) : world :=
  let 'World mu ms df _ bf tr := w in World mu ms df bs bf tr.

Definition has_id (id : string) (m : media) : bool := String.eqb (_id m) id.

Fixpoint remove_first (f : media -> bool) (l : list media) : list media :=
  match l with
  | [] => []
  | m :: r => if f m then r else m :: remove_first f r
  end.

Definition mongo_error : error := Error "MongoNetworkError: connection closed" None.
Definition cloudinary_error : error := Error "cloudinary: destroy failed" None.

Definition do_sync (A : Type) (rid : nat) (c : sync A) (w : world) : A * world :=
  match c in sync A return A * world with
  | Log l m => (tt, note (Logged l m) w)
  end.

Definition act (A : Type) (c : eff A) (w : world) : outcome A * world :=
  match c in eff A return outcome A * world with
  | MediaFindIn ids =>
      (* Media.find({ _id: { $in: ids } }) *)
      if mongo_up w
      then (Ok (List.filter (fun m => bool_decide (_id m ∈ ids)) (medias w)), w)
      else (Thrown mongo_error, w)
  | DeleteMediaFromCloudinary pid =>
      (* Modelled from the spec: see [deleteMediaFromCloudinary] *)
      if bool_decide (pid ∈ blob_faults w)
      then (Thrown cloudinary_error, w)
      else (Ok tt, with_blobs (blobs w ∖ {[pid]}) w)
  | MediaFindByIdAndDelete id =>
      if mongo_up w && negb (bool_decide (id ∈ doc_faults w))
      then (Ok (List.find (has_id id) (medias w)),
            with_medias (remove_first (has_id id) (medias w)) w)
      else (Thrown mongo_error, w)
  end.

Definition do_eff (A : Type) (rid : nat) (c : eff A) (w : world) : outcome A * world :=
  act A c (note (Called c) w).

(** Modelled from the spec: [deleteMediaFromCloudinary] of
    [utils/cloudinary.js], which is not among the sources.  "delete the
    backing blob via the external media store", an operation that can
    fail for one id: the blob is removed unless the store fails for that
    public id, in which case the call throws. *)
Definition deleteMediaFromCloudinary (pid : string) (w : world) : outcome unit * world :=
  act unit (DeleteMediaFromCloudinary pid) w.

(** One delivery of the message to the handler. *)
Definition deliver (ev : post_deleted) (w : world) : outcome unit * world :=
  run do_sync do_eff 0 (handlePostDeleted ev) w.

(** *** Vocabulary of the properties *)

(** The body of the loop of [handlePostDeleted]. *)
Definition loop_body (post : string) (m : media) : program unit :=
  bind (await (DeleteMediaFromCloudinary (publicId m))) (fun _ =>
  bind (await (MediaFindByIdAndDelete (_id m))) (fun _ =>
  logger Info ("Deleted media " +:+ _id m +:+
               " associated with this deleted post " +:+ post))).

(** The records the handler finds for a message. *)
Definition found (ev : post_deleted) (w : world) : list media :=
  List.filter (fun m => bool_decide (_id m ∈ mediaIds ev)) (medias w).

(** Both deletions succeed for the record. *)
Definition deletable (w : world) (m : media) : Prop :=
  (publicId m ∉ blob_faults w) /\ (_id m ∉ doc_faults w).

(** What the handler does for one record when nothing fails, and what it
    does for a record one of whose deletions fails. *)
Definition cleanup_events (post : string) (m : media) : list event :=
  [Called (DeleteMediaFromCloudinary (publicId m));
   Called (MediaFindByIdAndDelete (_id m));
   Logged Info ("Deleted media " +:+ _id m +:+
                " associated with this deleted post " +:+ post)].

Definition failed_events (w : world) (m : media) : list event :=
  if bool_decide (publicId m ∈ blob_faults w)
  then [Called (DeleteMediaFromCloudinary (publicId m))]
  else [Called (DeleteMediaFromCloudinary (publicId m));
        Called (MediaFindByIdAndDelete (_id m))].

End MediaService.

(** ** media-service: the upload and listing controllers *)

Module MediaController.

(** [req.file] as multer's memory storage leaves it. *)
Record file : Type := File {
  originalname : string;
  mimetype : string;
  buffer : string
}.

(** The parts of the request the controllers read; [req_file] is [None]
    when multer attached no file. *)
Record request : Type := Request {
  req_file : option file;
  user_userId : string
}.

(** What [uploadMediaToCloudinary] resolves to. *)
Record upload_result : Type := UploadResult {
  public_id : string;
  secure_url : string
}.

Inductive sync : Type -> Type :=
| Log (l : level) (m : string) : sync unit
| Respond (r : response) : sync unit
| NewMedia (publicId originalName mimeType url userId : string) : sync MediaService.media.

Inductive eff : Type -> Type :=
| UploadMediaToCloudinary (f : file) : eff upload_result
| MediaSave (m : MediaService.media) : eff MediaService.media
| MediaFind : eff (list MediaService.media).

Definition program : Type -> Type := prog sync eff.
Definition respond (st : Z) (b : json) : program unit := call (Respond (Response st b)).
Definition logger (l : level) (m : string) : program unit := call (Log l m).

Definition media_json (m : MediaService.media) : json :=
  JObj [("_id", JStr (MediaService._id m)); ("publicId", JStr (MediaService.publicId m));
        ("originalName", JStr (MediaService.originalName m));
        ("mimeType", JStr (MediaService.mimeType m)); ("url", JStr (MediaService.url m));
        ("userId", JStr (MediaService.userId m))].

(** Reading an identifier that no scope binds throws a
    [ReferenceError]. *)
Definition unbound {A} (name : string) : program A :=
  Throw (Error (name +:+ " is not defined") None).

Local Open Scope prog_scope.

Definition uploadMedia (req : request) : program unit :=
  logger Info "Starting file upload" ;;
  try_catch
    (match req_file req with
     | None =>
         logger Err "No file found. Please add a file and try again" ;;
         respond 400 (JObj [("success", JBool false);
                            ("message", JStr "No file found. Please add a file and try again")])
     | Some file =>
         let originalname := originalname file in
         let mimetype := mimetype file in
         let userId := user_userId req in
         logger Info ("File details: name=" +:+ originalname +:+ ", type=" +:+ mimetype) ;;
         logger Info "Uploading file to Cloudinary..." ;;
         cloudinaryUploadResult <- await (UploadMediaToCloudinary file) ;;
         logger Info ("Cloudinary upload successful. Public ID: " +:+
                      public_id cloudinaryUploadResult) ;;
         newlyCreatedMedia <- call (NewMedia (public_id cloudinaryUploadResult) originalname
                                             mimetype (secure_url cloudinaryUploadResult)
                                             userId) ;;
         newlyCreatedMedia <- await (MediaSave newlyCreatedMedia) ;;
         respond 201 (JObj [("success", JBool true);
                            ("mediaId", JStr (MediaService._id newlyCreatedMedia));
                            ("url", JStr (MediaService.url newlyCreatedMedia));
                            ("message", JStr "Media upload successful")])
     end)
    (fun error =>
       logger Err "Error uploading media" ;;
       respond 500 (JObj [("success", JBool false);
                          ("message", JStr "Error uploading media")])).

(** The [catch] block binds [e] and reads [error]. *)
Definition getAllMedias : program unit :=
  try_catch
    (result <- await MediaFind ;;
     respond 200 (JObj [("result", JArr (map media_json result))]))
    (fun e =>
       error <- (unbound "error" : program json) ;;
       logger Err "Error fetching media" ;;
       respond 500 (JObj [("success", JBool false);
                          ("message", JStr "Error fetching media")])).

Inductive event : Type :=
| Logged (l : level) (m : string)
| Responded (r : response)
| Called {A : Type} (c : eff A).

Record world : Type := World {
  mongo_up : bool;
  medias : list MediaService.media;   (* the Media collection, in insertion order *)
  next_oid : N;                       (* source of fresh ObjectIds *)
  trace : list event
}.

Definition note (e : event) (w : world) : world :=
  let 'World mu ms n tr := w in World mu ms n (tr ++ [e]).
Definition with_medias (ms : list MediaService.media) (w : world) : world :=
  let 'World mu _ n tr := w in World mu ms n tr.
Definition with_next_oid (n : N) (w : world) : world :=
  let 'World mu ms _ tr := w in World mu ms n tr.

Section Interpretation.
(** [uploadMediaToCloudinary] of [utils/cloudinary.js]: what Cloudinary
    answers for a file, or the error the upload fails with. *)
Variable uploadMediaToCloudinary : file -> outcome upload_result.

Definition do_sync (A : Type) (rid : nat) (c : sync A) (w : world) : A * world :=
  match c in sync A return A * world with
  | Log l m => (tt, note (Logged l m) w)
  | Respond r => (tt, note (Responded r) w)
  | NewMedia p o m u i =>
      (MediaService.Media (ObjectId (next_oid w)) p o m u i,
       with_next_oid (N.succ (next_oid w)) w)
  end.

Definition act (A : Type) (c : eff A) (w : world) : outcome A * world :=
  match c in eff A return outcome A * world with
  | UploadMediaToCloudinary f => (uploadMediaToCloudinary f, w)
  | MediaSave m =>
      if mongo_up w then (Ok m, with_medias (medias w ++ [m]) w)
      else (Thrown MediaService.mongo_error, w)
  | MediaFind =>
      if mongo_up w then (Ok (medias w), w) else (Thrown MediaService.mongo_error, w)
  end.

Definition do_eff (A : Type) (rid : nat) (c : eff A) (w : world) : outcome A * world :=
  act A c (note (Called c) w).

Definition handle (h : program unit) (w : world) : outcome unit * world :=
  run do_sync do_eff 0 h w.
End Interpretation.

Definition responses (w : world) : list response :=
  omap (fun e => match e with Responded r => Some r | _ => None end) (trace w).

(** *** Vocabulary of the properties *)

(** The record [uploadMedia] makes of a file and of what Cloudinary
    answered for it. *)
Definition new_media (req : request) (f : file) (res : upload_result) (w : world)
  : MediaService.media :=
  MediaService.Media (ObjectId (next_oid w)) (public_id res) (originalname f) (mimetype f)
                     (secure_url res) (user_userId req).

Definition uploaded (m : MediaService.media) : response :=
  Response 201 (JObj [("success", JBool true); ("mediaId", JStr (MediaService._id m));
                      ("url", JStr (MediaService.url m));
                      ("message", JStr "Media upload successful")]).

Definition upload_failed : response :=
  Response 500 (JObj [("success", JBool false); ("message", JStr "Error uploading media")]).

Definition listing (ms : list MediaService.media) : response :=
  Response 200 (JObj [("result", JArr (map media_json ms))]).

End MediaController.

(** ** identity-service: login and refresh-token rotation *)

Module IdentityService.

(** Documents are kept under their [_id]; a document read back from a
    collection is the pair of its [_id] and its fields. *)
Record user : Type := User {
  username : string;
  email : string;
  password : string               (* the argon2 hash *)
}.

Record refresh_token : Type := RefreshToken {
  token : string;
  user_id : string;
  expiresAt : Z
}.

Record login_body : Type := LoginBody {
  body_email : string;
  body_password : string
}.

(** [req.body.refreshToken], [None] when the member is absent. *)
Record refresh_body : Type := RefreshBody {
  body_refreshToken : option string
}.

Inductive sync : Type -> Type :=
| Log (l : level) (m : string) : sync unit
| Respond (r : response) : sync unit
| JwtSign (payload : json) (expiresIn : string) : sync string
| RandomBytesHex (n : nat) : sync string
| NewDate : sync Z.

Inductive eff : Type -> Type :=
| UserFindOne (email : string) : eff (option (string * user))
| UserFindById (id : string) : eff (option (string * user))
| ComparePassword (u : user) (candidate : string) : eff bool
| RefreshTokenCreate (t : refresh_token) : eff unit
| RefreshTokenFindOne (token : string) : eff (option (string * refresh_token))
| RefreshTokenDeleteOne (id : string) : eff unit.

Definition program : Type -> Type := prog sync eff.
Definition respond (st : Z) (b : json) : program unit := call (Respond (Response st b)).
Definition logger (l : level) (m : string) : program unit := call (Log l m).

Definition falsy (s : option string) : bool :=
  match s with None => true | Some x => String.eqb x "" end.

Section Controllers.
(** [validatelogin] of [utils/validation.js]. *)
Variable validatelogin : login_body -> option string.

Local Open Scope prog_scope.

(** [utils/generateToken.js] *)
Definition generateTokens (user : string * user) : program (string * string) :=
  accessToken <- call (JwtSign (JObj [("userId", JStr (fst user));
                                      ("username", JStr (username (snd user)))]) "60m") ;;
  refreshToken <- call (RandomBytesHex 40) ;;
  expiresAt <- call NewDate ;;
  let expiresAt := expiresAt + 7 * 86400000 in
  await (RefreshTokenCreate (RefreshToken refreshToken (fst user) expiresAt)) ;;
  Ret (accessToken, refreshToken).

Definition loginUser (body : login_body) : program unit :=
  logger Info "Login endpoint hit.." ;;
  try_catch
    (match validatelogin body with
     | Some msg =>
         logger Warn "Validation error" ;;
         respond 400 (JObj [("success", JBool false); ("message", JStr msg)])
     | None =>
         let email := body_email body in
         let password := body_password body in
         user <- await (UserFindOne email) ;;
         match user with
         | None =>
             logger Warn "Invalid user attempt" ;;
             respond 400 (JObj [("success", JBool false);
                                ("message", JStr "Invalid Credentials")])
         | Some user =>
             isValidPassword <- await (ComparePassword (snd user) password) ;;
             if negb isValidPassword
             then
               logger Warn "Invalid password attempt" ;;
               respond 400 (JObj [("success", JBool false);
                                  ("message", JStr "Invalid Credentials")])
             else
               tokens <- generateTokens user ;;
               respond 200 (JObj [("success", JBool true);
                                  ("accessToken", JStr (fst tokens));
                                  ("refreshToken", JStr (snd tokens));
                                  ("userId", JStr (fst user))])
         end
     end)
    (fun e =>
       logger Err "Login error occurred" ;;
       respond 500 (JObj [("success", JBool false);
                          ("message", JStr "Internal server error")])).

Definition refreshTokenUser (body : refresh_body) : program unit :=
  logger Info "Refresh Token endpoint hit.." ;;
  try_catch
    (let refreshToken := body_refreshToken body in
     if falsy refreshToken
     then
       logger Warn "Refresh Token missing" ;;
       respond 400 (JObj [("success", JBool false);
                          ("message", JStr "Refresh token missing")])
     else
       storedToken <- await (RefreshTokenFindOne (default "" refreshToken)) ;;
       let reject :=
         logger Warn "Invalid or expired refresh token" ;;
         respond 401 (JObj [("success", JBool false);
                            ("message", JStr "Invalid or expired token")]) in
       match storedToken with
       | None => reject
       | Some storedToken =>
           today <- call NewDate ;;
           if expiresAt (snd storedToken) <? today
           then reject
           else
             user <- await (UserFindById (user_id (snd storedToken))) ;;
             match user with
             | None =>
                 logger Warn "User not found" ;;
                 respond 401 (JObj [("success", JBool false);
                                    ("message", JStr "User not found")])
             | Some user =>
                 tokens <- generateTokens user ;;
                 await (RefreshTokenDeleteOne (fst storedToken)) ;;
                 respond 200 (JObj [("success", JBool true);
                                    ("accessToken", JStr (fst tokens));
                                    ("refreshToken", JStr (snd tokens))])
             end
       end)
    (fun e =>
       logger Err "Refresh Token error occurred" ;;
       respond 500 (JObj [("success", JBool false);
                          ("message", JStr "Internal server error")])).
End Controllers.

Inductive event : Type :=
| Logged (l : level) (m : string)
| Responded (r : response).

Record world : Type := World {
  mongo_up : bool;
  users : gmap string user;
  refreshTokens : gmap string refresh_token;
  next_oid : N;                   (* source of fresh ObjectIds *)
  now : Z;                        (* the clock, in milliseconds *)
  entropy : nat -> string;        (* what crypto.randomBytes will return, draw by draw *)
  drawn : nat;                    (* draws made so far *)
  JWT_SECRET_KEY : string;
  trace : list event
}.

Definition note (e : event) (w : world) : world :=
  let 'World mu us ts n t en d k tr := w in World mu us ts n t en d k (tr ++ [e]).
Definition with_refreshTokens (ts : gmap string refresh_token) (n : N) (w : world) : world :=
  let 'World mu us _ _ t en d k tr := w in World mu us ts n t en d k tr.
Definition draw (w : world) : world :=
  let 'World mu us ts n t en d k tr := w in World mu us ts n t en (S d) k tr.

Definition mongo_error : error := Error "MongoNetworkError: connection closed" None.
Definition duplicate_key : error := Error "E11000 duplicate key error" None.

(** [Model.findOne(filter)]: the first document the filter selects. *)
Definition findOne {A} (f : A -> bool) (m : gmap string A) : option (string * A) :=
  List.find (fun kv => f (snd kv)) (map_to_list m).

Section Interpretation.
(** [jwt.sign(payload, secret, {expiresIn})] at a given time, and
    [argon2.verify(hash, candidate)], which throws on a hash it cannot
    read. *)
Variable jwt_sign : json -> string -> string -> Z -> string.
Variable argon2_verify : string -> string -> outcome bool.

Definition do_sync (A : Type) (rid : nat) (c : sync A) (w : world) : A * world :=
  match c in sync A return A * world with
  | Log l m => (tt, note (Logged l m) w)
  | Respond r => (tt, note (Responded r) w)
  | JwtSign payload expiresIn => (jwt_sign payload (JWT_SECRET_KEY w) expiresIn (now w), w)
  | RandomBytesHex n => (entropy w (drawn w), draw w)
  | NewDate => (now w, w)
  end.

Definition do_eff (A : Type) (rid : nat) (c : eff A) (w : world) : outcome A * world :=
  match c in eff A return outcome A * world with
  | UserFindOne e =>
      if mongo_up w
      then (Ok (findOne (fun u => String.eqb (email u) e) (users w)), w)
      else (Thrown mongo_error, w)
  | UserFindById id =>
      if mongo_up w then (Ok (pair id <$> users w !! id), w) else (Thrown mongo_error, w)
  | ComparePassword u candidate => (argon2_verify (password u) candidate, w)
  | RefreshTokenCreate t =>
      if mongo_up w
      then let id := ObjectId (next_oid w) in
           match refreshTokens w !! id with
           | Some _ => (Thrown duplicate_key, w)
           | None => (Ok tt, with_refreshTokens (<[id := t]> (refreshTokens w))
                                                (N.succ (next_oid w)) w)
           end
      else (Thrown mongo_error, w)
  | RefreshTokenFindOne t =>
      if mongo_up w
      then (Ok (findOne (fun r => String.eqb (token r) t) (refreshTokens w)), w)
      else (Thrown mongo_error, w)
  | RefreshTokenDeleteOne id =>
      if mongo_up w
      then (Ok tt, with_refreshTokens (delete id (refreshTokens w)) (next_oid w) w)
      else (Thrown mongo_error, w)
  end.

Definition handle (h : program unit) (w : world) : world :=
  snd (run do_sync do_eff 0 h w).
End Interpretation.

(** The responses sent so far. *)
Definition responses (w : world) : list response :=
  omap (fun e => match e with Responded r => Some r | _ => None end) (trace w).

(** *** Vocabulary of the properties *)

Definition invalid_credentials : response :=
  Response 400 (JObj [("success", JBool false); ("message", JStr "Invalid Credentials")]).

Definition invalid_token : response :=
  Response 401 (JObj [("success", JBool false);
                      ("message", JStr "Invalid or expired token")]).

(** The answer of a refresh call that succeeded. *)
Definition refreshed (r : response) : Prop :=
  exists access fresh,
    r = Response 200 (JObj [("success", JBool true); ("accessToken", JStr access);
                            ("refreshToken", JStr fresh)]).

(** The stored refresh token that carries the text [t], if any. *)
Definition stored (t : string) (w : world) : option (string * refresh_token) :=
  findOne (fun x => String.eqb (token x) t) (refreshTokens w).

(** No two stored refresh tokens carry the text [t]. *)
Definition stored_once (t : string) (w : world) : Prop :=
  forall i j a b,
    refreshTokens w !! i = Some a -> refreshTokens w !! j = Some b ->
    token a = t -> token b = t -> i = j.

End IdentityService.

(** ** identity-service: registration and logout *)

Module Accounts.
Import IdentityService.

(** [req.body] of [POST /register] *)
Record register_body : Type := RegisterBody {
  reg_username : string;
  reg_email : string;
  reg_password : string
}.

(** The calls of [loginUser] and [refreshTokenUser], and those that
    [registerUser] and [logoutUser] make besides. *)
Inductive sync : Type -> Type :=
| BaseSync {A : Type} (c : IdentityService.sync A) : sync A
| NewUser (username email password : string) : sync (string * user).

Inductive eff : Type -> Type :=
| BaseEff {A : Type} (c : IdentityService.eff A) : eff A
| UserFindOneOr (email username : string) : eff (option (string * user))
| UserSave (doc : string * user) : eff (string * user)
| RefreshTokenDeleteOneByToken (token : string) : eff unit.

Definition program : Type -> Type := prog sync eff.
Definition respond (st : Z) (b : json) : program unit :=
  call (BaseSync (Respond (Response st b))).
Definition logger (l : level) (m : string) : program unit := call (BaseSync (Log l m)).

(** A program of the login controllers, called from here. *)
Fixpoint lift {R} (p : IdentityService.program R) : program R :=
  match p with
  | Ret r => Ret r
  | Throw e => Throw e
  | Sync c k => Sync (BaseSync c) (fun a => lift (k a))
  | Await c k => Await (BaseEff c) (fun o => lift (k o))
  end.

Section Controllers.
(** [validateRegistration] of [utils/validation.js]. *)
Variable validateRegistration : register_body -> option string.

Local Open Scope prog_scope.

Definition registerUser (body : register_body) : program unit :=
  logger Info "Registration endpoint hit.." ;;
  try_catch
    (match validateRegistration body with
     | Some msg =>
         logger Warn "Validation error" ;;
         respond 400 (JObj [("success", JBool false); ("message", JStr msg)])
     | None =>
         let username := reg_username body in
         let email := reg_email body in
         let password := reg_password body in
         userExists <- await (UserFindOneOr email username) ;;
         match userExists with
         | Some _ =>
             logger Warn "User already exists" ;;
             respond 400 (JObj [("success", JBool false);
                                ("message", JStr "User already exists")])
         | None =>
             user <- call (NewUser username email password) ;;
             user <- await (UserSave user) ;;
             logger Info "User saved successfully" ;;
             tokens <- lift (generateTokens user) ;;
             respond 201 (JObj [("success", JBool true);
                                ("message", JStr "User registered successfully");
                                ("accessToken", JStr (fst tokens));
                                ("refreshToken", JStr (snd tokens))])
         end
     end)
    (fun e =>
       logger Err "Registration error occurred" ;;
       respond 500 (JObj [("success", JBool false);
                          ("message", JStr "Internal server error")])).

Definition logoutUser (body : refresh_body) : program unit :=
  logger Info "Logout endpoint hit.." ;;
  try_catch
    (let refreshToken := body_refreshToken body in
     if falsy refreshToken
     then
       logger Warn "Refresh Token missing" ;;
       respond 400 (JObj [("success", JBool false);
                          ("message", JStr "Refresh token missing")])
     else
       await (RefreshTokenDeleteOneByToken (default "" refreshToken)) ;;
       logger Info "Refresh token deleted during logout" ;;
       respond 200 (JObj [("success", JBool true);
                          ("message", JStr "Logged out successfully")]))
    (fun e =>
       logger Err "Error while logging out" ;;
       respond 500 (JObj [("success", JBool false);
                          ("message", JStr "Internal server error")])).
End Controllers.

(** *** [models/User.js] *)

(** [String.prototype.trim] on the white space of the ASCII range. *)
Definition is_space (c : ascii) : bool :=
  let n := nat_of_ascii c in
  ((9 <=? n)%nat && (n <=? 13)%nat) || (n =? 32)%nat.
Fixpoint trimStart (s : string) : string :=
  match s with
  | "" => ""
  | String c r => if is_space c then trimStart r else s
  end.
Definition reverse (s : string) : string :=
  string_of_list_ascii (rev (list_ascii_of_string s)).
Definition trim (s : string) : string := reverse (trimStart (reverse (trimStart s))).

(** [new User({username, email, password})]: the schema trims
    [username] and [email] when they are set. *)
Definition new_user (username email password : string) : user :=
  User (trim username) (trim email) password.

(** The [required] validators of the schema: a required string must
    not be empty. *)
Definition required_paths (u : user) : bool :=
  negb (String.eqb (username u) "") && negb (String.eqb (email u) "") &&
  negb (String.eqb (password u) "").

Definition validation_error : error := Error "User validation failed" None.

Definition with_users (us : gmap string user) (w : world) : world :=
  let 'World mu _ ts n t en d k tr := w in World mu us ts n t en d k tr.
Definition with_next_oid (n : N) (w : world) : world :=
  let 'World mu us ts _ t en d k tr := w in World mu us ts n t en d k tr.

Section Interpretation.
(** [argon2.hash(password)], besides the two functions the login
    controllers are interpreted with. *)
Variable jwt_sign : json -> string -> string -> Z -> string.
Variable argon2_verify : string -> string -> outcome bool.
Variable argon2_hash : string -> outcome string.

Definition do_sync (A : Type) (rid : nat) (c : sync A) (w : world) : A * world :=
  match c in sync A return A * world with
  | BaseSync c => IdentityService.do_sync jwt_sign _ rid c w
  | NewUser u e p =>
      ((ObjectId (next_oid w), new_user u e p), with_next_oid (N.succ (next_oid w)) w)
  end.

(** [user.save()] of a new document: the validators run, then the
    [pre('save')] hook replaces the password by its hash, then the
    document is inserted, which the unique index on [email] refuses when
    the collection holds the address.  Mongoose casts a filter with the
    schema, so the values of a query on [email] and [username] are
    trimmed too. *)
Definition do_eff (A : Type) (rid : nat) (c : eff A) (w : world) : outcome A * world :=
  match c in eff A return outcome A * world with
  | BaseEff c => IdentityService.do_eff argon2_verify _ rid c w
  | UserFindOneOr e u =>
      if mongo_up w
      then (Ok (findOne (fun x => String.eqb (email x) (trim e) ||
                                  String.eqb (username x) (trim u)) (users w)), w)
      else (Thrown mongo_error, w)
  | UserSave (id, u) =>
      if negb (required_paths u) then (Thrown validation_error, w)
      else
        match argon2_hash (password u) with
        | Thrown e => (Thrown e, w)
        | Ok hash =>
            let saved := User (username u) (email u) hash in
            if mongo_up w
            then match findOne (fun x => String.eqb (email x) (email u)) (users w) with
                 | Some _ => (Thrown duplicate_key, w)
                 | None => (Ok (id, saved), with_users (<[id := saved]> (users w)) w)
                 end
            else (Thrown mongo_error, w)
        end
  | RefreshTokenDeleteOneByToken t =>
      (* RefreshToken.deleteOne({ token }) *)
      if mongo_up w
      then (Ok tt,
            match findOne (fun r => String.eqb (token r) t) (refreshTokens w) with
            | Some (id, _) => with_refreshTokens (delete id (refreshTokens w)) (next_oid w) w
            | None => w
            end)
      else (Thrown mongo_error, w)
  end.

Definition handle (h : program unit) (w : world) : world :=
  snd (run do_sync do_eff 0 h w).
End Interpretation.

(** *** Vocabulary of the properties *)

(** The four controllers of [controllers/identity-controller.js]. *)
Inductive controller_name : Type := RegisterUser | LoginUser | RefreshTokenUser | LogoutUser.

(** What each controller reads of the request body. *)
Record request_body : Type := RequestBody {
  registration : register_body;
  login : login_body;
  refresh : refresh_body
}.

Definition controller (validateRegistration : register_body -> option string)
    (validatelogin : login_body -> option string)
    (c : controller_name) (body : request_body) : program unit :=
  match c with
  | RegisterUser => registerUser validateRegistration (registration body)
  | LoginUser => lift (loginUser validatelogin (login body))
  | RefreshTokenUser => lift (refreshTokenUser (refresh body))
  | LogoutUser => logoutUser (refresh body)
  end.

Definition user_exists : response :=
  Response 400 (JObj [("success", JBool false); ("message", JStr "User already exists")]).

Definition logged_out : response :=
  Response 200 (JObj [("success", JBool true); ("message", JStr "Logged out successfully")]).

(** The answer of a registration that succeeded. *)
Definition registered (access fresh : string) : response :=
  Response 201 (JObj [("success", JBool true);
                      ("message", JStr "User registered successfully");
                      ("accessToken", JStr access); ("refreshToken", JStr fresh)]).

(** The answer of a login that succeeded. *)
Definition logged_in (access fresh id : string) : response :=
  Response 200 (JObj [("success", JBool true); ("accessToken", JStr access);
                      ("refreshToken", JStr fresh); ("userId", JStr id)]).

(** The payload of the access token of a user. *)
Definition access_payload (id : string) (u : user) : json :=
  JObj [("userId", JStr id); ("username", JStr (username u))].

(** Seven days, in milliseconds. *)
Definition seven_days : Z := 7 * 86400000.

End Accounts.

(** ** api-gateway *)

Module Gateway.

(** The payload of an access token. *)
Record claims : Type := Claims { userId : string; username : string }.

(** The parts of the incoming request the gateway reads.  Header names
    are case-insensitive; the maps are keyed by the lower-case name, as
    Node delivers them. *)
Record request : Type := Request {
  ip : string;
  method : string;
  originalUrl : string;
  headers : gmap string string;
  body : json                     (* as parsed by express.json() *)
}.

(** The request together with what middleware attaches to it ([req.user]). *)
Record context : Type := Context { req : request; user : option claims }.

Inductive service : Type := IdentityService | PostService | MediaService | SearchService.

Definition service_name (s : service) : string :=
  match s with
  | IdentityService => "Identity"
  | PostService => "Post"
  | MediaService => "Media"
  | SearchService => "Search"
  end.

(** A request as the proxy sends it upstream. *)
Record proxied : Type := Proxied {
  target : service;
  path : string;
  proxy_headers : gmap string string
}.

Record world : Type := World {
  hits : gmap string (Z * Z);     (* per client: hits in its window, end of the window *)
  now : Z;                        (* the clock, in milliseconds *)
  forwarded : list proxied;       (* requests sent upstream, oldest first *)
  logs : list (level * string)
}.

Definition log (l : level) (m : string) (w : world) : world :=
  let 'World h t f ls := w in World h t f (ls ++ [(l, m)]).
Definition with_hits (h : gmap string (Z * Z)) (w : world) : world :=
  let 'World _ t f ls := w in World h t f ls.
Definition forward (p : proxied) (w : world) : world :=
  let 'World h t f ls := w in World h t (f ++ [p]) ls.

(** An Express middleware [(req, res, next) => ...]: it answers, or hands
    the request on to [next]. *)
Definition middleware : Type :=
  context -> world -> (context -> world -> response * world) -> response * world.

(** [s.split(sep)] for a one-character separator *)
Fixpoint split (sep : ascii) (s : string) : list string :=
  match s with
  | "" => [""]
  | String c r =>
      if Ascii.eqb c sep then "" :: split sep r
      else match split sep r with
           | [] => [String c ""]
           | h :: t => String c h :: t
           end
  end.

Definition falsy (s : option string) : bool :=
  match s with None => true | Some x => String.eqb x "" end.

Definition lower_ascii (c : ascii) : ascii :=
  let n := nat_of_ascii c in
  if (65 <=? n)%nat && (n <=? 90)%nat then ascii_of_nat (n + 32) else c.
Fixpoint lower (s : string) : string :=
  match s with
  | "" => ""
  | String c r => String (lower_ascii c) (lower r)
  end.

(** [req.path]: the URL up to the query string *)
Fixpoint path_of (url : string) : string :=
  match url with
  | "" => ""
  | String c r => if Ascii.eqb c "?" then "" else String c (path_of r)
  end.

(** [app.use(prefix, ...)] applies to the paths at or below [prefix];
    Express compares without regard to case. *)
Definition mounted (prefix : string) (r : request) : bool :=
  let p := lower (path_of (originalUrl r)) in
  String.eqb p prefix || startsWith (prefix +:+ "/") p.

(** [req.originalUrl.replace(/^\/v1/, "/api")] *)
Definition proxyReqPathResolver (r : request) : string :=
  match originalUrl r with
  | String "/" (String "v" (String "1" rest)) => "/api" +:+ rest
  | url => url
  end.

Definition type_error (m : string) : error := Error m None.

(** [authHeader && authHeader.split(" ")[1]] for
    [authHeader = req.headers['authorization']] *)
Definition bearer_token (r : request) : option string :=
  let authHeader := headers r !! "authorization" in
  match authHeader with
  | None => None
  | Some h => if String.eqb h "" then Some "" else split " " h !! 1%nat
  end.

Section App.
(** [jwt.verify(token, secret)]: the decoded payload, or [None] when
    verification fails; the environment; the upstream services, whose
    connection may fail. *)
Variable jwt_verify : string -> string -> option claims.
Variable JWT_SECRET_KEY : string.
Variable NODE_ENV : string.
Variable upstream : proxied -> outcome response.

(** [middlewares/authMiddleware.js] *)
Definition validateToken : middleware := fun c w next =>
  let token := bearer_token (req c) in
  if falsy token
  then
    (Response 401 (JObj [("message", JStr "Authorization required");
                         ("success", JBool false)]),
     log Warn "Access attempt wihtout valid token" w)
  else
    match jwt_verify (default "" token) JWT_SECRET_KEY with
    | None =>
        (Response 401 (JObj [("message", JStr "Invalid token"); ("success", JBool false)]),
         log Warn "Invalid token" w)
    | Some user => next (Context (req c) (Some user)) w
    end.

(** [middlewares/errorHandler.js], installed last: it answers the errors
    that middleware passes to [next]. *)
Definition errorHandler (err : error) (w : world) : response * world :=
  let status := match err_status err with
                | Some s => if s =? 0 then 500 else s
                | None => 500
                end in
  (Response status
     (JObj [("message", JStr (if String.eqb NODE_ENV "production"
                              then "Internal Server Error"
                              else message err))]),
   log Err (message err) w).

(** *** The global rate limiter

    [express-rate-limit] with the Redis store: each request increments
    the counter of its client; a counter that is new or whose window
    has ended starts a window of [windowMs]; the request is handed to
    [handler] when the counter exceeds [max]. *)
Definition windowMs : Z := 15 * 60 * 1000.
Definition max : Z := 100.

Definition increment (key : string) (w : world) : Z * world :=
  let started := (1, now w + windowMs) in
  let counter :=
    match hits w !! key with
    | Some (n, resetTime) => if now w <? resetTime then (n + 1, resetTime) else started
    | None => started
    end in
  (fst counter, with_hits (<[key := counter]> (hits w)) w).

Definition globalRateLimiter : middleware := fun c w next =>
  let '(totalHits, w) := increment (ip (req c)) w in
  if max <? totalHits
  then
    (Response 429 (JObj [("success", JBool false); ("message", JStr "Too many requests")]),
     log Warn ("Rate limit exceeded for IP: " +:+ ip (req c)) w)
  else next c w.

(** *** The proxies *)

Definition proxyErrorHandler (err : error) (w : world) : response * world :=
  (Response 500 (JObj [("message", JStr "Internal server error");
                       ("error", JStr (message err))]),
   log Err ("Proxy error: " +:+ message err) w).

Definition decorator : Type := gmap string string -> context -> outcome (gmap string string).

(** [srcReq.user.userId] *)
Definition user_userId (c : context) : outcome string :=
  match user c with
  | Some u => Ok (userId u)
  | None => Thrown (type_error "Cannot read properties of undefined (reading 'userId')")
  end.

Definition identity_decorator : decorator := fun hs srcReq =>
  Ok (<["content-type" := "application/json"]> hs).

(** The decorator of the post proxy and of the search proxy. *)
Definition json_user_decorator : decorator := fun hs srcReq =>
  let hs := <["content-type" := "application/json"]> hs in
  match user_userId srcReq with
  | Thrown e => Thrown e
  | Ok id => Ok (<["x-user-id" := id]> hs)
  end.

Definition media_decorator : decorator := fun hs srcReq =>
  match user_userId srcReq with
  | Thrown e => Thrown e
  | Ok id =>
      let hs := <["x-user-id" := id]> hs in
      match headers (req srcReq) !! "content-type" with
      | None =>
          Thrown (type_error "Cannot read properties of undefined (reading 'startsWith')")
      | Some ct =>
          if negb (startsWith "multipart/form-data" ct)
          then Ok (<["content-type" := "application/json"]> hs)
          else Ok hs
      end
  end.

(** [proxy(host, {...proxyOptions, proxyReqOptDecorator, userResDecorator})]:
    express-http-proxy copies the headers of the request, lets the
    decorator change them, resolves the path, and sends; what the
    decorator throws and what the connection fails with both reach
    [proxyErrorHandler]. *)
Definition proxy (host : service) (decorate : decorator) : middleware := fun c w next =>
  match decorate (headers (req c)) c with
  | Thrown e => proxyErrorHandler e w
  | Ok hs =>
      let out := Proxied host (proxyReqPathResolver (req c)) hs in
      match upstream out with
      | Thrown e => proxyErrorHandler e (forward out w)
      | Ok res =>
          (res, log Info ("Response received from " +:+ service_name host +:+
                          " service: " +:+ pretty (status res))
                    (forward out w))
      end
  end.

(** [server.js].  [helmet()], [cors()] and [express.json()] come first
    and hand on the requests they accept; the model takes up such a
    request at the rate limiter.  Every mounted handler ends the
    request, so the first mount that applies decides. *)
Definition route (r : request) : option service :=
  if mounted "/v1/auth" r then Some IdentityService
  else if mounted "/v1/posts" r then Some PostService
  else if mounted "/v1/media" r then Some MediaService
  else if mounted "/v1/search" r then Some SearchService
  else None.

Definition unmatched (c : context) (w : world) : response * world :=
  (Response 404 (JStr ("Cannot " +:+ method (req c) +:+ " " +:+
                       path_of (originalUrl (req c)))), w).

Definition app (r : request) (w : world) : response * world :=
  globalRateLimiter (Context r None) w (fun c w =>
    let w := log Info ("Received " +:+ method r +:+ " request to " +:+ originalUrl r) w in
    let w := log Info ("Request body: " +:+ stringify (body r)) w in
    match route r with
    | Some IdentityService =>
        proxy IdentityService identity_decorator c w unmatched
    | Some PostService =>
        validateToken c w (fun c w => proxy PostService json_user_decorator c w unmatched)
    | Some MediaService =>
        validateToken c w (fun c w => proxy MediaService media_decorator c w unmatched)
    | Some SearchService =>
        validateToken c w (fun c w => proxy SearchService json_user_decorator c w unmatched)
    | None => unmatched c w
    end).

(** *** Vocabulary of the properties *)


(** The limiter lets the request of this client pass. *)
Definition admitted (r : request) (w : world) : Prop :=
  fst (increment (ip r) w) <= max.

(** The request carries a token that verifies as [u]. *)
Definition authenticated (r : request) (u : claims) : Prop :=
  exists token, bearer_token r = Some token /\ token <> "" /\
                jwt_verify token JWT_SECRET_KEY = Some u.

(** The request carries no token, or one that does not verify. *)
Definition unauthenticated (r : request) : Prop :=
  falsy (bearer_token r) = true \/
  jwt_verify (default "" (bearer_token r)) JWT_SECRET_KEY = None.

(** The prefixes behind [validateToken]. *)
Definition protected (r : request) : bool :=
  match route r with
  | Some PostService | Some MediaService | Some SearchService => true
  | _ => false
  end.

(** The string holds no space. *)
Definition one_word (s : string) : Prop := ~ In " "%char (list_ascii_of_string s).

(** The clock reads [t]. *)
Definition tick (t : Z) (w : world) : world :=
  let 'World h _ f ls := w in World h t f ls.


(** The client has no window running at the time of [w]. *)
Definition no_window (key : string) (w : world) : Prop :=
  match hits w !! key with
  | Some (_, resetTime) => resetTime <= now w
  | None => True
  end.

(** What the proxy of [host] sends upstream for a request whose
    headers the decorator has turned into [hs]. *)
Definition outgoing (host : service) (r : request) (hs : gmap string string) : proxied :=
  Proxied host (proxyReqPathResolver r) hs.
End App.

End Gateway.

(** ** search-service: the search controller *)

Module SearchService.

(** [req.query.query], [None] when the parameter is absent. *)
Record request : Type := Request { query : option string }.

Inductive sync : Type -> Type :=
| Log (l : level) (m : string) : sync unit
| Respond (r : response) : sync unit.

Inductive eff : Type -> Type :=
| RedisGet (key : string) : eff (option json)
| RedisSetex (key : string) (seconds : Z) (doc : json) : eff unit
| SearchFindText (search : string) : eff (list json).

Definition program : Type -> Type := prog sync eff.
Definition respond (st : Z) (b : json) : program unit := call (Respond (Response st b)).
Definition logger (l : level) (m : string) : program unit := call (Log l m).

Definition falsy (s : option string) : bool :=
  match s with None => true | Some x => String.eqb x "" end.
Definition truthy (reply : option json) : bool :=
  match reply with Some _ => true | None => false end.
Definition JSON_parse (reply : option json) : json :=
  match reply with Some doc => doc | None => JNull end.


Local Open Scope prog_scope.


(** What Redis holds under a key: the document whose text was stored and
    the time, in milliseconds, at which the key expires. *)
Record entry : Type := Entry { doc : json; expires : Z }.

Inductive event : Type :=
| Logged (l : level) (m : string)
| Responded (r : response)
| Called {A : Type} (c : eff A).

Record world : Type := World {
  mongo_up : bool;
  redis_up : bool;
  text_index : string -> list json;  (* the documents [$text] matches, best score first *)
  redis : gmap string entry;
  now : Z;                           (* the clock, in milliseconds *)
  trace : list event
}.

Definition note (e : event) (w : world) : world :=
  let 'World mu ru ix r t tr := w in World mu ru ix r t (tr ++ [e]).
Definition with_redis (r : gmap string entry) (w : world) : world :=
  let 'World mu ru ix _ t tr := w in World mu ru ix r t tr.

(** The clock reads [t]; the index has become [ix]. *)
Definition tick (t : Z) (w : world) : world :=
  let 'World mu ru ix r _ tr := w in World mu ru ix r t tr.

(** [GET key]: a key is gone once its time to live has passed. *)
Definition live (key : string) (w : world) : option json :=
  match redis w !! key with
  | Some e => if now w <? expires e then Some (doc e) else None
  | None => None
  end.

Definition mongo_error : error := Error "MongoNetworkError: connection closed" None.
Definition redis_error : error := Error "Connection is closed." None.

Definition do_sync (A : Type) (rid : nat) (c : sync A) (w : world) : A * world :=
  match c in sync A return A * world with
  | Log l m => (tt, note (Logged l m) w)
  | Respond r => (tt, note (Responded r) w)
  end.

Definition act (A : Type) (c : eff A) (w : world) : outcome A * world :=
  match c in eff A return outcome A * world with
  | RedisGet key =>
      if redis_up w then (Ok (live key w), w) else (Thrown redis_error, w)
  | RedisSetex key s d =>
      if redis_up w
      then (Ok tt, with_redis (<[key := Entry d (now w + s * 1000)]> (redis w)) w)
      else (Thrown redis_error, w)
  | SearchFindText q =>
      (* Search.find({ $text: { $search: q } }, ...).sort(...).limit(10) *)
      if mongo_up w then (Ok (take 10 (text_index w q)), w) else (Thrown mongo_error, w)
  end.

Definition do_eff (A : Type) (rid : nat) (c : eff A) (w : world) : outcome A * world :=
  act A c (note (Called c) w).

Definition handle (h : program unit) (w : world) : world :=
  snd (run do_sync do_eff 0 h w).

Definition responses (w : world) : list response :=
  omap (fun e => match e with Responded r => Some r | _ => None end) (trace w).

(** *** Vocabulary of the properties *)

(** The answer to a search that the index itself gives. *)
Definition found (w : world) (q : string) : response :=
  Response 200 (JArr (take 10 (text_index w q))).

End SearchService.

(** ** The rate limiters of the services

    identity-service, post-service, media-service and search-service
    guard their routes with [RateLimiterRedis] of rate-limiter-flexible:
    [consume(key)] counts one point against [keyPrefix:key] in Redis, in a
    window of [duration] seconds that starts with the first point, and
    rejects when more than [points] have been counted, or when Redis
    fails. *)

Module Limits.

Record RateLimiterRedis : Type := Limiter {
  keyPrefix : string;
  points : Z;
  duration : Z
}.

Record request : Type := Request {
  ip : string;
  headers : gmap string string
}.

Record world : Type := World {
  redis_up : bool;
  consumed : gmap string (Z * Z);   (* per key: points counted, end of the window *)
  now : Z;                          (* the clock, in milliseconds *)
  logs : list (level * string)
}.

Definition log (l : level) (m : string) (w : world) : world :=
  let 'World ru c t ls := w in World ru c t (ls ++ [(l, m)]).
Definition with_consumed (c : gmap string (Z * Z)) (w : world) : world :=
  let 'World ru _ t ls := w in World ru c t ls.
Definition tick (t : Z) (w : world) : world :=
  let 'World ru c _ ls := w in World ru c t ls.

Definition redis_error : error := Error "Connection is closed." None.
(** The rejection with which [consume] reports that the points are used up. *)
Definition rate_limiter_res : error := Error "RateLimiterRes" None.

Definition rlKey (l : RateLimiterRedis) (key : string) : string :=
  keyPrefix l +:+ ":" +:+ key.

Definition consume (l : RateLimiterRedis) (key : string) (w : world) : outcome unit * world :=
  if redis_up w
  then
    let started := (1, now w + duration l * 1000) in
    let counter :=
      match consumed w !! rlKey l key with
      | Some (n, expiry) => if now w <? expiry then (n + 1, expiry) else started
      | None => started
      end in
    (if points l <? fst counter then Thrown rate_limiter_res else Ok tt,
     with_consumed (<[rlKey l key := counter]> (consumed w)) w)
  else (Thrown redis_error, w).

(** An Express middleware: it answers, or hands the request on. *)
Definition middleware : Type :=
  request -> world -> (request -> world -> response * world) -> response * world.

Definition falsy (s : option string) : bool :=
  match s with None => true | Some x => String.eqb x "" end.

(** *** search-service, [server.js] *)
Module Search.

Definition globalRateLimiter : RateLimiterRedis := Limiter "global_rate_limit" 100 1.

Definition global : middleware := fun req w next =>
  match consume globalRateLimiter (ip req) w with
  | (Ok _, w) => next req w
  | (Thrown _, w) =>
      (Response 429 (JObj [("success", JBool false);
                           ("message", JStr "Service overloaded. Please try again later.")]),
       log Warn ("Global rate limit exceeded for IP: " +:+ ip req) w)
  end.

Definition searchLimiter : RateLimiterRedis := Limiter "search_rate_limit" 60 60.

(** The middleware mounted at [/api/search]. *)
Definition search : middleware := fun req w next =>
  let userId := headers req !! "x-user-id" in
  if falsy userId
  then (Response 401 (JObj [("success", JBool false);
                            ("message", JStr "Unauthorized - User ID required")]), w)
  else
    match consume searchLimiter (default "" userId) w with
    | (Ok _, w) => next req w
    | (Thrown _, w) =>
        (Response 429 (JObj [("success", JBool false);
                             ("message",
                              JStr "Too many search requests. Please try again later.")]),
         log Warn ("Search rate limit exceeded for user: " +:+ default "" userId) w)
    end.
End Search.

(** *** media-service, [server.js] *)
Module Media.

Definition globalLimiter : RateLimiterRedis := Limiter "media_global" 100 1.

Definition global : middleware := fun req w next =>
  match consume globalLimiter (ip req) w with
  | (Ok _, w) => next req w
  | (Thrown _, w) =>
      (Response 429 (JObj [("success", JBool false);
                           ("message", JStr "Service overloaded. Try again later.")]),
       log Warn ("Global rate limit exceeded for IP: " +:+ ip req) w)
  end.

Definition uploadLimiter : RateLimiterRedis := Limiter "media_upload" 5 60.

(** The middleware mounted at [/api/media/upload]. *)
Definition upload : middleware := fun req w next =>
  let userId := headers req !! "x-user-id" in
  if falsy userId
  then (Response 401 (JObj [("success", JBool false); ("message", JStr "Unauthorized")]), w)
  else
    match consume uploadLimiter (default "" userId) w with
    | (Ok _, w) => next req w
    | (Thrown _, w) =>
        (Response 429 (JObj [("success", JBool false);
                             ("message", JStr "Too many uploads. Please try again later.")]),
         log Warn "Upload rate limit exceeded for user" w)
    end.
End Media.

(** *** identity-service, [server.js] *)
Module Identity.

Definition rateLimiter : RateLimiterRedis := Limiter "middleware" 10 1.

Definition global : middleware := fun req w next =>
  match consume rateLimiter (ip req) w with
  | (Ok _, w) => next req w
  | (Thrown _, w) =>
      (Response 429 (JObj [("success", JBool false); ("message", JStr "Too many requests")]),
       log Warn ("Rate limit exceeded for IP: " +:+ ip req) w)
  end.
End Identity.

(** *** post-service, [server.js] *)
Module Post.

Definition globalratelimiter : RateLimiterRedis := Limiter "middleware" 50 1.

Definition global : middleware := fun req w next =>
  match consume globalratelimiter (ip req) w with
  | (Ok _, w) => next req w
  | (Thrown _, w) =>
      (Response 429 (JObj [("success", JBool false); ("message", JStr "Too many requests")]),
       log Warn ("Rate limit exceeded for IP: " +:+ ip req) w)
  end.
End Post.

(** *** Vocabulary of the properties *)

(** The six limiting middlewares, the limiter of each, and the key each
    counts a request under. *)
Inductive guard : Type :=
| SearchGlobal | SearchPerUser | MediaGlobal | MediaUpload | IdentityGlobal | PostGlobal.

Definition guard_middleware (g : guard) : middleware :=
  match g with
  | SearchGlobal => Search.global
  | SearchPerUser => Search.search
  | MediaGlobal => Media.global
  | MediaUpload => Media.upload
  | IdentityGlobal => Identity.global
  | PostGlobal => Post.global
  end.

Definition guard_limiter (g : guard) : RateLimiterRedis :=
  match g with
  | SearchGlobal => Search.globalRateLimiter
  | SearchPerUser => Search.searchLimiter
  | MediaGlobal => Media.globalLimiter
  | MediaUpload => Media.uploadLimiter
  | IdentityGlobal => Identity.rateLimiter
  | PostGlobal => Post.globalratelimiter
  end.

Definition per_user (g : guard) : bool :=
  match g with SearchPerUser | MediaUpload => true | _ => false end.

Definition guard_key (g : guard) (req : request) : string :=
  if per_user g then default "" (headers req !! "x-user-id") else ip req.

(** The request names the caller the guard counts by. *)
Definition identified (g : guard) (req : request) : Prop :=
  per_user g = true -> falsy (headers req !! "x-user-id") = false.

(** The body with which each guard turns a request away. *)
Definition guard_rejection (g : guard) : response :=
  Response 429
    (JObj [("success", JBool false);
           ("message",
            JStr match g with
                 | SearchGlobal => "Service overloaded. Please try again later."
                 | SearchPerUser => "Too many search requests. Please try again later."
                 | MediaGlobal => "Service overloaded. Try again later."
                 | MediaUpload => "Too many uploads. Please try again later."
                 | IdentityGlobal | PostGlobal => "Too many requests"
                 end)]).



(** No window is running for the key at the time of [w]. *)
Definition no_window (key : string) (w : world) : Prop :=
  match consumed w !! key with
  | Some (_, expiry) => expiry <= now w
  | None => True
  end.

End Limits.

(** ** post-service: the order of the middleware in [server.js] *)

Module PostServer.

(** The parts of the request the server reads.  [path] is [req.path],
    [method] is upper case as Node delivers it; [body], [query_page] and
    [query_limit] are what the controllers will read. *)
Record request : Type := Request {
  method : string;
  path : string;
  ip : string;
  headers : gmap string string;
  body : PostService.create_body;
  query_page : option Z;
  query_limit : option Z
}.

Record world : Type := World {
  service : PostService.world;    (* the stores, the broker and the trace of the controllers *)
  limits : Limits.world           (* the Redis of the rate limiters *)
}.

Definition with_service (s : PostService.world) (w : world) : world :=
  let 'World _ l := w in World s l.
Definition with_limits (l : Limits.world) (w : world) : world :=
  let 'World s _ := w in World s l.

(** A middleware answers, leaves the request without answer ([None]),
    or hands it on to what follows. *)
Definition handler : Type := request -> world -> option response * world.
Definition middleware : Type := request -> world -> handler -> option response * world.

(** [app.use(path, ...)]: the layer applies to the paths at or below
    [path], compared without regard to case, and sees the rest of the
    path, which is [/] when nothing is left; of two slashes after the
    mount path the first goes with the mount. *)
Definition below (mount : string) (p : string) : option string :=
  let l := Gateway.lower p in
  let n := String.length mount in
  if String.eqb l mount then Some "/"
  else if startsWith (mount +:+ "//") l then Some (String.substring (S n) (String.length p) p)
  else if startsWith (mount +:+ "/") l then Some (String.substring n (String.length p) p)
  else None.

(** [router.METHOD('/name', ...)]: the path is the name, with or without
    a final slash, in any letter case. *)
Definition is_route (name rest : string) : bool :=
  let l := Gateway.lower rest in
  String.eqb l name || String.eqb l (name +:+ "/").

(** [router.METHOD('/:id', ...)]: one segment that is not empty, with or
    without a final slash; the segment is the parameter (percent-decoding
    is left out). *)
Fixpoint segment (s : string) : option string :=
  match s with
  | "" => Some ""
  | String c r =>
      if Ascii.eqb c "/" then (if String.eqb r "" then Some "" else None)
      else option_map (String c) (segment r)
  end.
Definition param (rest : string) : option string :=
  match rest with
  | String "/" r =>
      match segment r with
      | Some id => if String.eqb id "" then None else Some id
      | None => None
      end
  | _ => None
  end.

(** [routes/post-routes.js]: the first route that matches the method and
    the path; a [HEAD] request is served by the [GET] routes. *)
Definition dispatch (method rest : string) : option (PostService.route * string) :=
  let m := if String.eqb method "HEAD" then "GET" else method in
  if String.eqb m "POST" && is_route "/create-post" rest
  then Some (PostService.POST_create_post, "")
  else if String.eqb m "GET" && is_route "/all-posts" rest
  then Some (PostService.GET_all_posts, "")
  else match param rest with
       | Some id =>
           if String.eqb m "GET" then Some (PostService.GET_id, id)
           else if String.eqb m "DELETE" then Some (PostService.DELETE_id, id)
           else None
       | None => None
       end.

(** The first response the controller sent to this request, if any. *)
Definition answered (rid : nat) (before after : PostService.world) : option response :=
  head (drop (length (PostService.responses rid before)) (PostService.responses rid after)).

Section App.
(** [validateCreatePost]; [authenticateRequest] of
    [middlewares/authMiddleware.js], which answers itself or attaches the
    [userId] of the caller; and the two limiters that [rateLimit] makes,
    [readLimiter] and [writeLimiter]. *)
Variable validateCreatePost : PostService.create_body -> option string.
Variable authenticateRequest : request -> world -> (response + string) * world.
Variable readLimiter : middleware.
Variable writeLimiter : middleware.

(** The global limiter, mounted first: [Limits.Post.global] on the
    state of the server. *)
Definition globalratelimiter : middleware := fun r w next =>
  match Limits.consume Limits.Post.globalratelimiter (ip r) (limits w) with
  | (Ok _, l) => next r (with_limits l w)
  | (Thrown _, l) =>
      (Some (Response 429 (JObj [("success", JBool false);
                                 ("message", JStr "Too many requests")])),
       with_limits (Limits.log Warn ("Rate limit exceeded for IP: " +:+ ip r) l) w)
  end.

(** [postRoutes]: [router.use(authenticateRequest)], then the four
    routes.  A controller ends the request; a request no route matches
    leaves the router. *)
Definition postRoutes (rid : nat) (rest : string) : middleware := fun r w next =>
  match authenticateRequest r w with
  | (inl res, w) => (Some res, w)
  | (inr userId, w) =>
      match dispatch (method r) rest with
      | Some (route, id) =>
          let req := PostService.Request (body r) userId id (query_page r) (query_limit r) in
          let s := PostService.handle rid (PostService.controller validateCreatePost route req)
                                      (service w) in
          (answered rid (service w) s, with_service s w)
      | None => next r w
      end
  end.

(** The guard in front of [writeLimiter]. *)
Definition write_guard : middleware := fun r w next =>
  if String.eqb (method r) "POST" || String.eqb (method r) "DELETE"
  then writeLimiter r w next
  else next r w.

(** No layer answered: Express answers 404. *)
Definition not_found : handler := fun r w =>
  (Some (Response 404 (JStr ("Cannot " +:+ method r +:+ " " +:+ path r))), w).

(** [server.js], from the global limiter on, in the order of its
    [app.use] calls. *)
Definition app (rid : nat) : handler := fun r w =>
  globalratelimiter r w (fun r w =>
    match below "/api/posts" (path r) with
    | Some rest =>
        postRoutes rid rest r w (fun r w =>
          readLimiter r w (fun r w =>
            write_guard r w not_found))
    | None => not_found r w
    end).
End App.

(** *** Vocabulary of the properties *)

(** The request is one that a route of the router serves. *)
Definition routed (r : request) : Prop :=
  exists rest, below "/api/posts" (path r) = Some rest /\
               dispatch (method r) rest <> None.

End PostServer.

(** ** Concrete situations *)

Module Scenario.

(** *** post-service *)
Module Posts.
Import PostService.

Definition accept_all (b : create_body) : option string := None.

(** An empty store and an empty cache, everything reachable. *)
Definition quiet : world := World true true [] ∅ 1 1000 true [] [].

(** The same with the broker's channel closed. *)
Definition broker_down : world := World true true [] ∅ 1 1000 false [] [].

Definition hello : request := Request (CreateBody "hello" None) "u1" "" None None.
Definition first_page : request :=
  Request (CreateBody "" None) "u2" "" (Some 1) (Some 10).

(** One post of user [u1] in the store, nothing cached. *)
Definition the_post : post := Post (ObjectId 1) "u1" "hello" ["m1"; "m2"] 1000.
Definition one_post : world := World true true [the_post] ∅ 2 2000 true [] [].
Definition by_owner : request := Request (CreateBody "" None) "u1" (ObjectId 1) None None.
Definition by_other : request := Request (CreateBody "" None) "u2" (ObjectId 1) None None.



(** The same store with Redis unreachable. *)
Definition redis_down : world := World true false [] ∅ 1 1000 true [] [].


(** A cache that holds a listing, an entry under the empty key and an
    entry of another service. *)
Definition some_entry : entry := Entry (JArr []) 300.
Definition filled : world :=
  World true true []
        {["posts:1:10" := some_entry; "" := some_entry; "search:hello" := some_entry]}
        1 1000 true [] [].

(** A create, a read of the created post and a listing, one after the
    other. *)
Definition session : list (nat * route * request) :=
  [(1%nat, POST_create_post, hello); (2%nat, GET_id, by_owner);
   (3%nat, GET_all_posts, first_page)].
End Posts.

(** *** media-service *)
Module Medias.
Import MediaService.

Definition m1 : media := Media "m1" "blob1" "a.png" "image/png" "http://cdn/a" "u1".
Definition m2 : media := Media "m2" "blob2" "b.png" "image/png" "http://cdn/b" "u1".

(** Cloudinary cannot delete the first blob. *)
Definition first_blob_stuck : world :=
  World true [m1; m2] ∅ {["blob1"; "blob2"]} {["blob1"]} [].

Definition deleted : post_deleted := PostDeleted "p1" ["m1"; "m2"].

(** A third record, of another post; nothing fails. *)
Definition m3 : media := Media "m3" "blob3" "c.png" "image/png" "http://cdn/c" "u2".
Definition all_well : world :=
  World true [m1; m3; m2] ∅ {["blob1"; "blob2"; "blob3"]} ∅ [].
End Medias.

(** *** media-service, the controllers *)
Module Uploads.
Import MediaController.

Definition photo : file := File "a.png" "image/png" "bytes".
Definition with_photo : request := Request (Some photo) "u1".

(** Cloudinary accepts every file. *)
Definition cloudinary (f : file) : outcome upload_result :=
  Ok (UploadResult "blob9" "https://cdn/blob9").

Definition empty_store : world := World true [] 1 [].
Definition store_down : world := World false [] 1 [].
End Uploads.

(** *** identity-service *)
Module Identity.
Import IdentityService.

Definition accept_all (b : login_body) : option string := None.
Definition jwt_sign (payload : json) (secret expiresIn : string) (iat : Z) : string :=
  "header." +:+ stringify payload +:+ ".signature".
Definition argon2_verify (hash candidate : string) : outcome bool :=
  Ok (String.eqb hash ("argon2:" +:+ candidate)).

Definition alice : user := User "alice" "alice@x.com" "argon2:secret123".

(** [alice] is registered and holds the refresh token [t0]. *)
Definition registered : world :=
  World true {[ObjectId 1 := alice]}
        {[ObjectId 2 := RefreshToken "t0" (ObjectId 1) 700000000]}
        3 1000 (fun n => "t" +:+ pretty (S n)) 0 "secret" [].

(** Nobody is registered. *)
Definition nobody : world :=
  World true ∅ ∅ 3 1000 (fun n => "t" +:+ pretty (S n)) 0 "secret" [].

Definition wrong_password : login_body := LoginBody "alice@x.com" "guess".

Definition argon2_hash (password : string) : outcome string := Ok ("argon2:" +:+ password).

Definition accept_registration (b : Accounts.register_body) : option string := None.
Definition bob : Accounts.register_body := Accounts.RegisterBody " bob " "bob@x.com" "hunter22".
Definition alice_again : Accounts.register_body :=
  Accounts.RegisterBody "alice2" "alice@x.com" "hunter22".

(** The refresh token [t0] of [alice] has expired. *)
Definition lapsed : world :=
  World true {[ObjectId 1 := alice]}
        {[ObjectId 2 := RefreshToken "t0" (ObjectId 1) 500]}
        3 1000 (fun n => "t" +:+ pretty (S n)) 0 "secret" [].
End Identity.

(** *** api-gateway *)
Module Edge.
Import Gateway.

Definition jwt_verify (token secret : string) : option claims :=
  if String.eqb token "good" then Some (Claims "u1" "alice") else None.

Definition up (out : proxied) : outcome response := Ok (Response 200 (JObj [])).
Definition refused : error := Error "connect ECONNREFUSED 10.0.0.5:3002" None.
Definition down (out : proxied) : outcome response := Thrown refused.

Definition idle : world := World ∅ 0 [] [].


Definition bearer : gmap string string := {["authorization" := "Bearer good"]}.

Definition list_media : request := Request "10.1.1.1" "GET" "/v1/media/get" bearer JNull.
Definition list_posts : request :=
  Request "10.1.1.1" "GET" "/v1/posts/all-posts?page=1" bearer JNull.

(** A token under another scheme word; a request that names a user of
    its own; a login; an upload; a path in capitals. *)
Definition other_scheme : request :=
  Request "10.1.1.1" "GET" "/v1/posts/all-posts" {["authorization" := "Token good"]} JNull.
Definition capitals : request :=
  Request "10.1.1.1" "GET" "/V1/posts/all-posts" bearer JNull.

Definition proceed (c : context) (w : world) : response * world := (Response 200 JNull, w).
End Edge.

(** *** search-service *)
Module Searches.
Import SearchService.

(** An index that finds the query itself, nothing cached, the clock at 0. *)
Definition fresh : world := World true true (fun q => [JStr q]) ∅ 0 [].
End Searches.

(** *** the rate limiters of the services *)
Module Guards.
Import Limits.

Definition calm : world := World true ∅ 0 [].
Definition outage : world := World false ∅ 0 [].
Definition by_user : request := Request "10.1.1.1" {["x-user-id" := "u1"]}.
Definition nameless : request := Request "10.1.1.1" ∅.
Definition proceed (r : request) (w : world) : response * world := (Response 200 JNull, w).
End Guards.

(** *** post-service, the server *)
Module Server.
Import PostServer.

Definition listing : request :=
  Request "GET" "/api/posts/all-posts" "10.1.1.1" ∅ (PostService.CreateBody "" None) None None.
Definition start : world := World Posts.quiet Guards.calm.
Definition authenticateRequest (r : request) (w : world) : (response + string) * world :=
  (inr "u1", w).
(** Two limiters: one that lets every request pass, one that none. *)
Definition open_limiter : middleware := fun r w next => next r w.
Definition closed_limiter : middleware := fun r w next =>
  (Some (Response 429 (JObj [("success", JBool false);
                             ("message", JStr "Too many read requests")])), w).
End Server.

End Scenario.


(** * Properties *)

(** ** Running programs *)

Section RunFacts.
Context {sync eff : Type -> Type} {W : Type}.
Variable do_sync : forall A, nat -> sync A -> W -> A * W.
Variable do_eff : forall A, nat -> eff A -> W -> outcome A * W.

(** Sequencing: the second program runs in the state the first one leaves,
    unless the first one throws. *)
Lemma run_bind {A B} (p : prog sync eff A) (f : A -> prog sync eff B) rid w :
  run do_sync do_eff rid (bind p f) w =
  match run do_sync do_eff rid p w with
  | (Ok a, w') => run do_sync do_eff rid (f a) w'
  | (Thrown e, w') => (Thrown e, w')
  end.
Proof.
  revert w. induction p as [a|e|X c k IH|X c k IH]; intros w; simpl; try reflexivity.
  - destruct (do_sync X rid c w) as [x w']. apply IH.
  - destruct (do_eff X rid c w) as [o w']. apply IH.
Qed.

(** A [catch] block runs in the state in which the exception was thrown:
    what the [try] block did before stays done. *)
Lemma run_try_catch {A} (p : prog sync eff A) (h : error -> prog sync eff A) rid w :
  run do_sync do_eff rid (try_catch p h) w =
  match run do_sync do_eff rid p w with
  | (Ok a, w') => (Ok a, w')
  | (Thrown e, w') => run do_sync do_eff rid (h e) w'
  end.
Proof.
  revert w. induction p as [a|e|X c k IH|X c k IH]; intros w; simpl; try reflexivity.
  - destruct (do_sync X rid c w) as [x w']. apply IH.
  - destruct (do_eff X rid c w) as [o w']. apply IH.
Qed.

(** Running the synchronous prefix of a handler does not change what the
    handler does when it runs alone. *)
Lemma run_settle {R} (p : prog sync eff R) rid w :
  run do_sync do_eff rid (fst (settle do_sync rid p w)) (snd (settle do_sync rid p w)) =
  run do_sync do_eff rid p w.
Proof.
  revert w. induction p as [a|e|X c k IH|X c k IH]; intros w; simpl; try reflexivity.
  destruct (do_sync X rid c w) as [x w']. apply IH.
Qed.

(** Nor does resuming it at its pending [await]. *)
Lemma run_resume {R} (p : prog sync eff R) rid w :
  run do_sync do_eff rid (fst (resume do_sync do_eff rid p w))
                         (snd (resume do_sync do_eff rid p w)) =
  run do_sync do_eff rid p w.
Proof.
  destruct p as [a|e|X c k|X c k]; simpl; try reflexivity.
  destruct (do_eff X rid c w) as [o w']. apply run_settle.
Qed.

(** A request that is alone in flight: resumed often enough, its handler
    finishes, in the state in which [run] leaves it. *)
Lemma resumed_alone (p : prog sync eff unit) rid : forall w,
  exists n p',
    schedule do_sync do_eff (repeat (Resume rid) n)
      ([(rid, fst (settle do_sync rid p w))], snd (settle do_sync rid p w)) =
    ([(rid, p')], snd (run do_sync do_eff rid p w)) /\ finished p' = true.
Proof.
  induction p as [a|e|X c k IH|X c k IH]; intros w.
  - exists 0%nat, (Ret a). split; reflexivity.
  - exists 0%nat, (Throw e). split; reflexivity.
  - cbn [settle run]. destruct (do_sync X rid c w) as [x w']. apply IH.
  - cbn [settle run fst snd].
    destruct (do_eff X rid c w) as [o w'] eqn:Heff.
    destruct (IH o w') as (n & p' & Hn & Hfin).
    exists (S n), p'. split; [|exact Hfin].
    cbn [repeat]. unfold schedule in *. cbn [fold_left schedule1 resume_in fst snd].
    rewrite Nat.eqb_refl. cbn [resume]. rewrite Heff.
    destruct (settle do_sync rid (k o) w') as [q w''] eqn:Hsettle.
    cbn [fst snd] in Hn. exact Hn.
Qed.

Lemma arrived_alone (p : prog sync eff unit) rid w :
  exists n p',
    schedule do_sync do_eff (Arrive rid p :: repeat (Resume rid) n) ([], w) =
    ([(rid, p')], snd (run do_sync do_eff rid p w)) /\ finished p' = true.
Proof.
  destruct (resumed_alone p rid w) as (n & p' & Hn & Hfin).
  exists n, p'. split; [|exact Hfin].
  unfold schedule in *. cbn [fold_left schedule1 fst snd].
  destruct (settle do_sync rid p w) as [q w']. exact Hn.
Qed.
End RunFacts.

(** ** The calls a program makes *)

(** The innermost scrutinee of a term that is stuck on a [match]. *)
Ltac innermost x :=
  lazymatch x with
  | context [match ?y with _ => _ end] => innermost y
  | _ => destruct x eqn:?
  end.

Section CallFacts.
Context {sync eff : Type -> Type} {W : Type}.
Variable do_sync : forall A, nat -> sync A -> W -> A * W.
Variable do_eff : forall A, nat -> eff A -> W -> outcome A * W.
Variable P : forall A, eff A -> Prop.

Lemma all_calls_bind {A B} (p : prog sync eff A) (f : A -> prog sync eff B) :
  all_calls P p -> (forall a, all_calls P (f a)) -> all_calls P (bind p f).
Proof.
  intros Hp Hf. induction p as [a|e|X c k IH|X c k IH]; simpl in *; auto.
  destruct Hp as [Hc Hk]. split; auto.
Qed.

Lemma all_calls_try_catch {A} (p : prog sync eff A) (h : error -> prog sync eff A) :
  all_calls P p -> (forall e, all_calls P (h e)) -> all_calls P (try_catch p h).
Proof.
  intros Hp Hh. induction p as [a|e|X c k IH|X c k IH]; simpl in *; auto.
  destruct Hp as [Hc Hk]. split; auto.
Qed.

(** A property of the state that every synchronous call keeps, and every
    awaited call that satisfies [P], is kept by a program all of whose
    calls satisfy [P]. *)
Lemma run_keeps (I : W -> Prop) :
  (forall A rid (c : sync A) w, I w -> I (snd (do_sync A rid c w))) ->
  (forall A rid (c : eff A) w, P A c -> I w -> I (snd (do_eff A rid c w))) ->
  forall R (p : prog sync eff R) rid w,
    all_calls P p -> I w -> I (snd (run do_sync do_eff rid p w)).
Proof.
  intros Hsync Heff R p rid. induction p as [a|e|X c k IH|X c k IH]; intros w Hp Hw; simpl.
  - exact Hw.
  - exact Hw.
  - specialize (Hsync X rid c w Hw). destruct (do_sync X rid c w) as [x w1].
    apply IH; [apply Hp | exact Hsync].
  - destruct Hp as [Hc Hk]. specialize (Heff X rid c w Hc Hw).
    destruct (do_eff X rid c w) as [o w1]. apply IH; [apply Hk | exact Heff].
Qed.
End CallFacts.

(** ** post-service *)

Module PostFacts.
Import PostService.

Local Opaque ObjectId.

Ltac responses_simpl :=
  unfold responses; cbn [trace];
  repeat (rewrite ?omap_app, ?Nat.eqb_refl, ?app_nil_r, <- ?app_assoc;
          cbn [omap list_omap app]).

Ltac responses_simpl_in H :=
  unfold responses in H; cbn [trace] in H;
  repeat (rewrite ?omap_app, ?Nat.eqb_refl, ?app_nil_r, <- ?app_assoc in H;
          cbn [omap list_omap app] in H).

(** A response other than the expected one was sent. *)
Ltac wrong_response H :=
  exfalso; responses_simpl_in H; apply app_inv_head in H; discriminate H.

(** The event is among those noted. *)
Ltac event_noted :=
  cbn [trace fst snd]; rewrite ?in_app_iff; cbn [In]; intuition reflexivity.

Lemma startsWith_append p s : startsWith p (p +:+ s) = true.
Proof.
  unfold startsWith. induction p as [|c p IH].
  - destruct s; reflexivity.
  - change (String c p +:+ s) with (String c (p +:+ s)). cbn [String.prefix].
    destruct (ascii_dec c c); [exact IH|congruence].
Qed.

Lemma nonempty_eqb s : s <> "" -> String.eqb s "" = false.
Proof. intros Hs. destruct (String.eqb_spec s ""); [contradiction|reflexivity]. Qed.

Lemma hex_fixed_nonempty d n acc : acc <> "" -> hex_fixed d n acc <> "".
Proof.
  revert n acc. induction d as [|d IH]; intros n acc Hacc; simpl; [exact Hacc|].
  apply IH. discriminate.
Qed.

(** An ObjectId is never the empty string, so it is truthy. *)
Lemma ObjectId_nonempty n : ObjectId n <> "".
Proof.
  Local Transparent ObjectId. unfold ObjectId. Local Opaque ObjectId.
  change (hex_fixed 24 n "")
    with (hex_fixed 23 (n / 16)%N (String (hex_digit (n mod 16)%N) "")).
  apply hex_fixed_nonempty. discriminate.
Qed.

(** *** Patterns *)

Lemma glob_star s : glob "*" s = true.
Proof. induction s as [|c s IH]; [reflexivity|]. simpl in *. exact IH. Qed.

(** A pattern made of literal characters and a final [*] selects the keys
    that start with the literal part. *)
Lemma glob_literal_star lit :
  (forall c, In c (list_ascii_of_string lit) -> c <> "*"%char /\ c <> "?"%char) ->
  forall s, glob (lit +:+ "*") s = String.prefix lit s.
Proof.
  induction lit as [|c lit IH]; intros Hlit s.
  - change ("" +:+ "*") with "*". rewrite glob_star. destruct s; reflexivity.
  - change (String c lit +:+ "*") with (String c (lit +:+ "*")).
    destruct (Hlit c (or_introl eq_refl)) as [Hstar Hany].
    apply Ascii.eqb_neq in Hstar, Hany.
    cbn [glob]. rewrite Hstar, Hany.
    destruct s as [|d s]; [reflexivity|].
    cbn [String.prefix]. destruct (ascii_dec c d) as [->|Hne].
    + rewrite Ascii.eqb_refl. simpl. apply IH.
      intros x Hx. apply Hlit. right. exact Hx.
    + apply Ascii.eqb_neq in Hne. rewrite Hne. reflexivity.
Qed.

Lemma glob_posts_star key : glob "posts:*" key = startsWith "posts:" key.
Proof.
  apply (glob_literal_star "posts:").
  intros c Hc. simpl in Hc.
  repeat (destruct Hc as [<-|Hc]; [split; discriminate|]). destruct Hc.
Qed.

Global Arguments glob : simpl never.

(** *** Deleting the keys that a scan returned *)

Lemma lookup_foldr_delete {A} (m : gmap string A) keys k :
  foldr delete m keys !! k = if bool_decide (k ∈ keys) then None else m !! k.
Proof.
  induction keys as [|x keys IH]; simpl; [reflexivity|].
  destruct (decide (x = k)) as [->|Hne].
  - rewrite lookup_delete_eq. rewrite bool_decide_eq_true_2; [reflexivity|]. left.
  - rewrite lookup_delete_ne by exact Hne. rewrite IH.
    destruct (bool_decide (k ∈ keys)) eqn:Hk.
    + apply bool_decide_eq_true_1 in Hk. rewrite bool_decide_eq_true_2; [reflexivity|].
      right. exact Hk.
    + apply bool_decide_eq_false_1 in Hk. rewrite bool_decide_eq_false_2; [reflexivity|].
      intros Hin. apply elem_of_cons in Hin as [->|Hin]; [congruence|contradiction].
Qed.

Lemma scanned_keys_deleted {A} (f : string -> bool) (m : gmap string A) k :
  f k = true ->
  foldr delete m (filter (fun x => f x = true) (map fst (map_to_list m))) !! k = None.
Proof.
  intros Hk. rewrite lookup_foldr_delete.
  destruct (m !! k) as [v|] eqn:Hm.
  - rewrite bool_decide_eq_true_2; [reflexivity|].
    apply list_elem_of_filter. split; [exact Hk|].
    apply list_elem_of_fmap. exists (k, v). split; [reflexivity|].
    apply elem_of_map_to_list. exact Hm.
  - destruct (bool_decide _); reflexivity.
Qed.

Lemma invalidated_single id m : invalidated id m !! ("post:" +:+ id) = None.
Proof.
  unfold invalidated. rewrite lookup_foldr_delete.
  destruct (bool_decide _); [reflexivity|]. apply lookup_delete_eq.
Qed.


(** *** The two writes *)


(** *** The two reads on a cache that holds nothing for them *)

Lemma getPost_from_store rid r w :
  mongo_up w = true -> redis_up w = true ->
  redis w !! ("post:" +:+ params_id r) = None ->
  responses rid (handle rid (getPost r) w) =
  responses rid w ++ [store_post (posts w) (params_id r)].
Proof.
  intros Hm Hr Hmiss. destruct w as [mu ru ps rd oid t bu pub tr].
  cbn [mongo_up redis_up redis posts] in *. subst mu ru.
  unfold handle, getPost, store_post. simpl. rewrite Hmiss. simpl.
  destruct (find _ ps) as [p|]; simpl; responses_simpl; reflexivity.
Qed.



(** [handle] is the schedule in which the request is alone in flight. *)
Lemma handled_alone rid (h : program unit) w :
  exists n, snd (interleave (Arrive rid h :: repeat (Resume rid) n) w) = handle rid h w.
Proof.
  destruct (arrived_alone do_sync do_eff h rid w) as (n & p' & Hn & _).
  exists n. unfold interleave, handle. rewrite Hn. reflexivity.
Qed.

Import Scenario.Posts.



(** C1.  On a cache miss for a post the store holds, [getPost] answers with
    the post and writes it to the cache, with an expiry of 3600 seconds, under
    the key made of the reply to the lookup, which is [null] and reaches Redis
    as the empty string.  Nothing is written under [post:{id}], so the same
    request repeated is a miss again and asks the store again. *)
Theorem getPost_miss_caches_under_empty_key rid rid2 req w p :
  redis_up w = true -> mongo_up w = true ->
  redis w !! ("post:" +:+ params_id req) = None ->
  List.find (fun q => String.eqb (_id q) (params_id req)) (posts w) = Some p ->
  let w' := handle rid (getPost req) w in
  let w'' := handle rid2 (getPost req) w' in
  responses rid w' = responses rid w ++ [Response 200 (JObj [("singlePost", post_json p)])] /\
  redis w' = <["" := Entry (post_json p) 3600]> (redis w) /\
  redis w' !! ("post:" +:+ params_id req) = None /\
  trace w'' = trace w' ++
    [(rid2, Logged Info "Get single Post endpoint hit");
     (rid2, Called (RedisGet ("post:" +:+ params_id req)));
     (rid2, Logged Info "Cache miss -> fetching post from MongoDB");
     (rid2, Called (PostFindById (params_id req)));
     (rid2, Called (RedisSetex "" 3600 (post_json p)));
     (rid2, Responded (Response 200 (JObj [("singlePost", post_json p)])))].
Proof.
  intros Hr Hm Hmiss Hfind.
  assert (Hmiss' : <["" := Entry (post_json p) 3600]> (redis w)
                     !! ("post:" +:+ params_id req) = None).
  { rewrite lookup_insert_ne; [exact Hmiss | discriminate]. }
  destruct w as [mu ru ps rd oid t bu pub tr].
  cbn [mongo_up redis_up redis posts] in Hr, Hm, Hmiss, Hfind, Hmiss'. subst.
  unfold handle, getPost. simpl. rewrite Hmiss. simpl. rewrite Hfind. simpl.
  rewrite Hmiss'. simpl. rewrite Hfind. simpl.
  repeat split; try assumption.
  - responses_simpl. reflexivity.
  - rewrite <- !app_assoc. reflexivity.
Qed.

Lemma getPost_miss_caches_under_empty_key_witness :
  let w' := handle 1 (getPost by_owner) one_post in
  redis w' = <["" := Entry (post_json the_post) 3600]> (redis one_post) /\
  redis w' !! ("post:" +:+ ObjectId 1) = None.
Proof.
  pose proof (getPost_miss_caches_under_empty_key 1 2 by_owner one_post the_post)
    as H.
  destruct H as (_ & Hkey & Hnone & _); try (vm_compute; reflexivity).
  split; [exact Hkey | exact Hnone].
Defined.

Lemma snoc2_ex {A} (l : list A) x y : exists before, (l ++ [x]) ++ [y] = before ++ [x; y].
Proof. exists l. rewrite <- app_assoc. reflexivity. Qed.

(** C3, as amended.  When the store write of [createPost] or [deletePost]
    has succeeded and the publish that follows throws, the write is not
    rolled back and nothing reaches the broker; the failure is logged, and
    the request is answered with status 500 and the generic message of the
    handler.  The cache is left as it was. *)
Theorem publish_failure_answers_500 validate op rid req w :
  mongo_up w = true -> broker_up w = false ->
  accepted validate op req w = true ->
  let w' := handle rid (write_handler validate op req) w in
  posts w' = applied op req w /\
  published w' = published w /\
  redis w' = redis w /\
  responses rid w' = responses rid w ++ [failure op] /\
  exists before,
    trace w' = before ++ [(rid, failure_log op); (rid, Responded (failure op))].
Proof.
  intros Hm Hb Hacc. destruct w as [mu ru ps rd oid t bu pub tr].
  cbn [mongo_up broker_up] in Hm, Hb. subst mu bu.
  destruct op; unfold accepted in Hacc; apply bool_decide_eq_true_1 in Hacc;
    unfold handle, write_handler, createPost, deletePost, applied;
    cbn [posts body next_oid now] in Hacc |- *.
  - rewrite Hacc. simpl. repeat split.
    + responses_simpl. reflexivity.
    + apply snoc2_ex.
  - destruct Hacc as [p Hp]. simpl. rewrite Hp. simpl. repeat split.
    + responses_simpl. reflexivity.
    + apply snoc2_ex.
Qed.

(** C3 as stated fails: with the broker's channel closed, [createPost]
    saves the post and answers 500, so the failure of the publish is a
    failure of the request. *)
Lemma publish_failure_fails_the_request :
  let w' := handle 1 (createPost accept_all hello) broker_down in
  posts w' = [Post (ObjectId 1) "u1" "hello" [] 1000] /\
  responses 1 w' = [failure CreatePost] /\
  status (failure CreatePost) = 500.
Proof. vm_compute. repeat split. Qed.

Lemma publish_failure_answers_500_witness :
  let w' := handle 1 (write_handler accept_all CreatePost hello) broker_down in
  posts w' = applied CreatePost hello broker_down /\
  responses 1 w' = responses 1 broker_down ++ [failure CreatePost].
Proof.
  pose proof (publish_failure_answers_500 accept_all CreatePost 1 hello broker_down) as H.
  destruct H as (Hposts & _ & _ & Hresp & _); try (vm_compute; reflexivity).
  split; [exact Hposts | exact Hresp].
Defined.

(** *** Ownership *)

(** Documents are identified by their [_id]. *)
Lemma same_id_same_post (ps : list post) p q :
  NoDup (map _id ps) -> In p ps -> In q ps -> _id q = _id p -> q = p.
Proof.
  induction ps as [|x ps IH]; intros Hnd Hp Hq Hid; [destruct Hp|].
  cbn [map] in Hnd. apply NoDup_cons in Hnd as [Hx Hnd].
  destruct Hp as [->|Hp], Hq as [->|Hq]; [reflexivity| | |auto].
  - exfalso. apply Hx. rewrite <- Hid. apply list_elem_of_In, in_map, Hq.
  - exfalso. apply Hx. rewrite Hid. apply list_elem_of_In, in_map, Hp.
Qed.

Lemma find_owner ps p :
  NoDup (map _id ps) -> In p ps ->
  List.find (matches (_id p) (user p)) ps = Some p.
Proof.
  intros Hnd Hp. destruct (List.find _ ps) as [q|] eqn:Hfind.
  - apply find_some in Hfind as [Hq Hm]. unfold matches in Hm.
    apply andb_true_iff in Hm as [Hid _]. apply String.eqb_eq in Hid.
    f_equal. apply (same_id_same_post ps); assumption.
  - apply (find_none _ _ Hfind) in Hp. unfold matches in Hp.
    rewrite !String.eqb_refl in Hp. discriminate.
Qed.

Lemma find_other ps p other :
  NoDup (map _id ps) -> In p ps -> other <> user p ->
  List.find (matches (_id p) other) ps = None.
Proof.
  intros Hnd Hp Hne. destruct (List.find _ ps) as [q|] eqn:Hfind; [|reflexivity].
  apply find_some in Hfind as [Hq Hm]. unfold matches in Hm.
  apply andb_true_iff in Hm as [Hid Hu]. apply String.eqb_eq in Hid, Hu.
  assert (q = p) by (apply (same_id_same_post ps); assumption). subst q.
  congruence.
Qed.

Lemma remove_first_none (f : post -> bool) ps :
  List.find f ps = None -> remove_first f ps = ps.
Proof.
  induction ps as [|x ps IH]; [reflexivity|]. cbn [List.find remove_first].
  destruct (f x); [discriminate|]. intros H. f_equal. apply IH, H.
Qed.

Lemma removed_is_gone ps p :
  NoDup (map _id ps) -> In p ps ->
  List.find (fun q => String.eqb (_id q) (_id p))
            (remove_first (matches (_id p) (user p)) ps) = None.
Proof.
  induction ps as [|x ps IH]; intros Hnd Hp; [destruct Hp|].
  cbn [map] in Hnd. apply NoDup_cons in Hnd as [Hx Hnd].
  cbn [remove_first]. destruct (matches (_id p) (user p) x) eqn:Hm.
  - unfold matches in Hm. apply andb_true_iff in Hm as [Hid _]. apply String.eqb_eq in Hid.
    destruct (List.find _ ps) as [q|] eqn:Hfind; [|reflexivity].
    apply find_some in Hfind as [Hq Hqid]. apply String.eqb_eq in Hqid.
    exfalso. apply Hx. rewrite Hid, <- Hqid. apply list_elem_of_In, in_map, Hq.
  - destruct Hp as [->|Hp].
    + unfold matches in Hm. rewrite !String.eqb_refl in Hm. discriminate.
    + cbn [List.find]. destruct (String.eqb_spec (_id x) (_id p)) as [Hid|_]; [|auto].
      exfalso. apply Hx. rewrite Hid. apply list_elem_of_In, in_map, Hp.
Qed.

(** C7.  Let the store hold the post [p] of user U.  A [deletePost] for it
    by another user V is answered 404, leaves the store as it was and
    publishes nothing.  A [deletePost] by U removes the post, after which the
    store holds no post of that id, and calls the publisher with
    [post.deleted] and the post's [postId], [userId] and [mediaIds]; with the
    broker's channel open the message is accepted, and with Redis reachable
    too the request is answered with success. *)
Theorem deletePost_checks_ownership rid reqU reqV w p :
  mongo_up w = true ->
  NoDup (map _id (posts w)) -> In p (posts w) ->
  params_id reqU = _id p -> user_userId reqU = user p ->
  params_id reqV = _id p -> user_userId reqV <> user p ->
  let wV := handle rid (deletePost reqV) w in
  let wU := handle rid (deletePost reqU) w in
  (responses rid wV = responses rid w ++ [not_found] /\ posts wV = posts w /\
   published wV = published w) /\
  (posts wU = remove_first (matches (_id p) (user p)) (posts w) /\
   List.find (fun q => String.eqb (_id q) (_id p)) (posts wU) = None /\
   In (rid, Called (PublishEvent (fst (post_deleted p)) (snd (post_deleted p)))) (trace wU) /\
   (broker_up w = true -> published wU = published w ++ [post_deleted p]) /\
   (broker_up w = true -> redis_up w = true ->
    responses rid wU = responses rid w ++ [success DeletePost])).
Proof.
  intros Hm Hnd Hp HidU HuU HidV HuV.
  pose proof (find_owner _ _ Hnd Hp) as HfindU.
  pose proof (find_other _ _ _ Hnd Hp HuV) as HfindV.
  pose proof (removed_is_gone _ _ Hnd Hp) as Hgone.
  destruct w as [mu ru ps rd oid t bu pub tr].
  cbn [mongo_up posts broker_up redis_up published] in *.
  subst mu. unfold handle, deletePost, invalidatePostCache, truthy_string.
  rewrite HidU, HuU, HidV. cbn zeta.
  split.
  - simpl. rewrite HfindV. simpl. repeat split.
    + responses_simpl. reflexivity.
    + apply remove_first_none, HfindV.
  - destruct bu, ru, (negb (String.eqb (_id p) "")); simpl; rewrite HfindU; simpl;
      try (destruct (0 <? length _)%nat; simpl);
      (repeat split;
       first [ exact Hgone
             | event_noted
             | intros; first [congruence | responses_simpl; reflexivity] ]).
Qed.

Lemma deletePost_checks_ownership_witness :
  let wV := handle 1 (deletePost by_other) one_post in
  let wU := handle 1 (deletePost by_owner) one_post in
  (responses 1 wV = [not_found] /\ posts wV = [the_post]) /\
  (List.find (fun q => String.eqb (_id q) (ObjectId 1)) (posts wU) = None /\
   published wU = [post_deleted the_post]).
Proof.
  pose proof (deletePost_checks_ownership 1 by_owner by_other one_post the_post) as H.
  destruct H as ((HrV & HpV & _) & (_ & Hgone & _ & Hpub & _));
    try (vm_compute; reflexivity).
  - apply NoDup_singleton.
  - left. reflexivity.
  - vm_compute. discriminate.
  - split; [split; [exact HrV | exact HpV]|]. split; [exact Hgone|].
    apply Hpub. reflexivity.
Defined.


(** *** The cache of single posts *)

(** None of the four controllers writes a key of the [post:] family. *)
Lemma controllers_write_no_single_post validate r req :
  all_calls writes_no_single_post (controller validate r req).
Proof.
  destruct r; unfold controller, createPost, getAllPosts, getPost, deletePost,
    invalidatePostCache.
  - simpl. intros _. destruct (validate (body req)); simpl; [easy|].
    intros p. split; [exact I|]. intros [saved|e]; simpl; [|easy].
    split; [exact I|]. intros [[]|e]; simpl; [|easy].
    destruct (truthy_string _); simpl.
    + split; [exact I|]. intros [[]|e]; simpl; [|easy].
      split; [exact I|]. intros [keys|e]; simpl; [|easy].
      destruct (0 <? length keys)%nat; simpl; [|easy].
      split; [exact I|]. intros [[]|e]; simpl; easy.
    + split; [exact I|]. intros [keys|e]; simpl; [|easy].
      destruct (0 <? length keys)%nat; simpl; [|easy].
      split; [exact I|]. intros [[]|e]; simpl; easy.
  - simpl. intros _. split; [exact I|]. intros [cached|e]; simpl; [|easy].
    destruct (truthy cached); simpl; [easy|].
    intros _. split; [exact I|]. intros [ps|e]; simpl; [|easy].
    split; [exact I|]. intros [n|e]; simpl; [|easy].
    split; [reflexivity|]. intros [[]|e]; simpl; easy.
  - simpl. intros _. split; [exact I|]. intros [cached|e]; simpl; [|easy].
    destruct cached as [d|]; simpl; [easy|].
    intros _. split; [exact I|]. intros [[p|]|e]; simpl; try easy.
    split; [reflexivity|]. intros [[]|e]; simpl; easy.
  - simpl. intros _. split; [exact I|]. intros [[p|]|e]; simpl; try easy.
    split; [exact I|]. intros [[]|e]; simpl; [|easy].
    destruct (truthy_string _); simpl.
    + split; [exact I|]. intros [[]|e]; simpl; [|easy].
      split; [exact I|]. intros [keys|e]; simpl; [|easy].
      destruct (0 <? length keys)%nat; simpl; [|easy].
      split; [exact I|]. intros [[]|e]; simpl; easy.
    + split; [exact I|]. intros [keys|e]; simpl; [|easy].
      destruct (0 <? length keys)%nat; simpl; [|easy].
      split; [exact I|]. intros [[]|e]; simpl; easy.
Qed.

Lemma do_sync_redis A rid (c : sync A) w : redis (snd (do_sync A rid c w)) = redis w.
Proof. destruct c, w; reflexivity. Qed.

Lemma do_eff_keeps_no_single_post A rid (c : eff A) w :
  writes_no_single_post A c -> no_single_post (redis w) ->
  no_single_post (redis (snd (do_eff A rid c w))).
Proof.
  intros Hc Hw. unfold do_eff.
  destruct w as [mu ru ps rd oid t bu pub tr]. cbn [redis] in Hw.
  destruct c; cbn [act note redis_up mongo_up broker_up]; cbn [writes_no_single_post] in Hc;
    repeat match goal with |- context [if ?b then _ else _] => destruct b end;
    cbn [snd redis with_redis with_posts with_published]; try exact Hw.
  - intros k Hk. rewrite lookup_insert_ne; [apply Hw, Hk|]. intros ->. congruence.
  - intros k Hk. rewrite lookup_foldr_delete. destruct (bool_decide _); [reflexivity|].
    apply Hw, Hk.
Qed.

(** X2.  No controller of the post service ever writes a key of the
    [post:] family: when the cache holds no such key, it holds none after
    any sequence of createPost, getAllPosts, getPost and deletePost
    requests.  Every [getPost] handled then, with Redis reachable, is a
    cache miss and asks MongoDB for the post. *)
Theorem single_post_cache_is_never_populated validate calls w :
  no_single_post (redis w) ->
  let w' := handle_all validate calls w in
  no_single_post (redis w') /\
  forall rid req, redis_up w' = true ->
    In (rid, Called (PostFindById (params_id req))) (trace (handle rid (getPost req) w')).
Proof.
  intros Hw w'.
  assert (Hkept : no_single_post (redis w')).
  { subst w'. revert w Hw. induction calls as [|[[rid r] req] calls IH]; intros w Hw; [exact Hw|].
    apply IH. cbn [fst snd]. unfold handle.
    apply (run_keeps do_sync do_eff writes_no_single_post (fun w => no_single_post (redis w))).
    - intros A rid' c w0 H0. rewrite do_sync_redis. exact H0.
    - intros A rid' c w0. apply do_eff_keeps_no_single_post.
    - apply controllers_write_no_single_post.
    - exact Hw. }
  split; [exact Hkept|].
  intros rid req Hup. clearbody w'. clear Hw.
  specialize (Hkept ("post:" +:+ params_id req) (startsWith_append _ _)).
  destruct w' as [mu ru ps rd oid t bu pub tr]. cbn [redis redis_up] in *. subst ru.
  unfold handle, getPost. simpl. rewrite Hkept. simpl.
  destruct mu; simpl; [destruct (find _ ps); simpl|]; event_noted.
Qed.

Lemma single_post_cache_is_never_populated_witness :
  redis (handle_all accept_all session quiet) !! ("post:" +:+ ObjectId 1) = None /\
  In (4%nat, Called (PostFindById (ObjectId 1)))
     (trace (handle 4 (getPost by_owner) (handle_all accept_all session quiet))).
Proof.
  pose proof (single_post_cache_is_never_populated accept_all session quiet) as H.
  destruct H as [Hkept Hread].
  - intros key _. reflexivity.
  - split.
    + apply Hkept. apply startsWith_append.
    + apply (Hread 4%nat by_owner). vm_compute. reflexivity.
Defined.

(** *** The cache of listings *)



(** [KEYS pattern] returned nothing: no key of the cache matches. *)
Lemma no_key_scanned {A} (f : string -> bool) (m : gmap string A) k :
  filter (fun x => f x = true) (map fst (map_to_list m)) = [] -> f k = true -> m !! k = None.
Proof.
  intros Hnil Hk. destruct (m !! k) as [v|] eqn:Hm; [|reflexivity].
  assert (Hin : k ∈ filter (fun x => f x = true) (map fst (map_to_list m))).
  { apply list_elem_of_filter. split; [exact Hk|].
    apply list_elem_of_fmap. exists (k, v). split; [reflexivity|].
    apply elem_of_map_to_list. exact Hm. }
  rewrite Hnil in Hin. apply elem_of_nil in Hin. destruct Hin.
Qed.

Lemma scanned_keys_only {A} (f : string -> bool) (m : gmap string A) k :
  f k = false ->
  foldr delete m (filter (fun x => f x = true) (map fst (map_to_list m))) !! k = m !! k.
Proof.
  intros Hk. rewrite lookup_foldr_delete. rewrite bool_decide_eq_false_2; [reflexivity|].
  intros Hin. apply list_elem_of_filter in Hin as [Hf _]. congruence.
Qed.

(** X3.  With Redis reachable, [invalidatePostCache(req, id)] returns
    without throwing and leaves the post collection alone; afterwards the
    cache holds nothing under [post:{id}] (when [id] is not empty) and
    nothing under any key that starts with [posts:], and every other key
    holds what it held before. *)
Theorem invalidatePostCache_deletes_exactly rid id w :
  redis_up w = true ->
  let res := run do_sync do_eff rid (invalidatePostCache id) w in
  fst res = Ok tt /\
  posts (snd res) = posts w /\
  forall key,
    redis (snd res) !! key =
    if (truthy_string id && String.eqb key ("post:" +:+ id)) || startsWith "posts:" key
    then None else redis w !! key.
Proof.
  intros Hr res. subst res. destruct w as [mu ru ps rd oid t bu pub tr].
  cbn [redis_up] in Hr. subst ru. unfold invalidatePostCache.
  destruct (truthy_string id); simpl.
  - set (m1 := delete ("post:" +:+ id) rd).
    assert (Hm1 : forall key, m1 !! key =
              if String.eqb key ("post:" +:+ id) then None else rd !! key).
    { intros key. subst m1. destruct (String.eqb_spec key ("post:" +:+ id)) as [->|Hne].
      - apply lookup_delete_eq.
      - apply lookup_delete_ne. congruence. }
    destruct (0 <? length _)%nat eqn:Hkeys; simpl.
    + repeat split. intros key. rewrite <- glob_posts_star.
      destruct (glob "posts:*" key) eqn:Hg.
      * rewrite orb_true_r. apply scanned_keys_deleted. exact Hg.
      * rewrite orb_false_r. rewrite scanned_keys_only by exact Hg. apply Hm1.
    + apply Nat.ltb_ge in Hkeys. apply Nat.le_0_r, nil_length_inv in Hkeys.
      repeat split. intros key. rewrite <- glob_posts_star.
      destruct (glob "posts:*" key) eqn:Hg.
      * rewrite orb_true_r. apply (no_key_scanned (glob "posts:*")); assumption.
      * rewrite orb_false_r. apply Hm1.
  - destruct (0 <? length _)%nat eqn:Hkeys; simpl.
    + repeat split. intros key. rewrite <- glob_posts_star.
      destruct (glob "posts:*" key) eqn:Hg.
      * apply scanned_keys_deleted. exact Hg.
      * apply scanned_keys_only. exact Hg.
    + apply Nat.ltb_ge in Hkeys. apply Nat.le_0_r, nil_length_inv in Hkeys.
      repeat split. intros key. rewrite <- glob_posts_star.
      destruct (glob "posts:*" key) eqn:Hg.
      * apply (no_key_scanned (glob "posts:*")); assumption.
      * reflexivity.
Qed.

Lemma invalidatePostCache_deletes_exactly_witness :
  let w' := snd (run do_sync do_eff 1 (invalidatePostCache (ObjectId 1)) filled) in
  redis w' !! "posts:1:10" = None /\
  redis w' !! "" = Some some_entry /\
  redis w' !! "search:hello" = Some some_entry.
Proof.
  pose proof (invalidatePostCache_deletes_exactly 1 (ObjectId 1) filled) as H.
  destruct H as (_ & _ & Hkeys); [reflexivity|].
  repeat split; rewrite Hkeys; vm_compute; reflexivity.
Defined.

(** *** Writes *)

Lemma find_snoc_fresh {A} (f : A -> bool) l x :
  find f l = None -> find f (l ++ [x]) = if f x then Some x else None.
Proof.
  induction l as [|y l IH]; simpl; [reflexivity|].
  destruct (f y); [discriminate|]. exact IH.
Qed.

(** X4.  With MongoDB, RabbitMQ and Redis reachable, [createPost] for a
    body that passes validation answers 201, appends to the collection
    one post with a fresh [_id], the [userId] of the caller, the content
    and the media ids of the body (none when the body names none), and
    publishes [post.created] for it.  A [getPost] for that [_id] handled
    next answers 200 with the post. *)
Theorem created_post_is_read_back validate rid rid2 req get w :
  mongo_up w = true -> redis_up w = true -> broker_up w = true ->
  validate (body req) = None ->
  (forall p, In p (posts w) -> _id p <> ObjectId (next_oid w)) ->
  params_id get = ObjectId (next_oid w) ->
  let w' := handle rid (createPost validate req) w in
  responses rid w' = responses rid w ++ [success CreatePost] /\
  posts w' = posts w ++ [new_post req w] /\
  published w' = published w ++ [post_created (new_post req w)] /\
  responses rid2 (handle rid2 (getPost get) w') =
    responses rid2 w' ++ [Response 200 (JObj [("singlePost", post_json (new_post req w))])].
Proof.
  intros Hm Hr Hb Hv Hfresh Hget w'.
  assert (Hcreated : responses rid w' = responses rid w ++ [success CreatePost] /\
            posts w' = posts w ++ [new_post req w] /\
            published w' = published w ++ [post_created (new_post req w)] /\
            mongo_up w' = true /\ redis_up w' = true /\
            redis w' = invalidated (ObjectId (next_oid w)) (redis w)).
  { subst w'. destruct w as [mu ru ps rd oid t bu pub tr].
    cbn [mongo_up redis_up broker_up posts published redis next_oid] in *. subst mu ru bu.
    unfold handle, createPost, invalidatePostCache, truthy_string, new_post, post_created,
      invalidated.
    rewrite Hv. simpl. rewrite (nonempty_eqb _ (ObjectId_nonempty oid)). simpl.
    destruct (0 <? length _)%nat eqn:Hkeys; simpl.
    - repeat split. responses_simpl. reflexivity.
    - apply Nat.ltb_ge in Hkeys. apply Nat.le_0_r, nil_length_inv in Hkeys.
      rewrite Hkeys. simpl. repeat split. responses_simpl. reflexivity. }
  destruct Hcreated as (Hresp & Hposts & Hpub & Hm' & Hr' & Hcache).
  repeat split; try assumption.
  rewrite (getPost_from_store rid2 get w' Hm' Hr').
  - f_equal. f_equal. unfold store_post. rewrite Hposts, Hget.
    assert (Hnone : find (fun p => String.eqb (_id p) (ObjectId (next_oid w))) (posts w) = None).
    { destruct (find _ (posts w)) as [q|] eqn:Hfind; [|reflexivity].
      apply find_some in Hfind as [Hq Hid]. apply String.eqb_eq in Hid.
      exfalso. exact (Hfresh q Hq Hid). }
    rewrite (find_snoc_fresh _ _ _ Hnone). cbn [new_post _id].
    rewrite String.eqb_refl. reflexivity.
  - rewrite Hget, Hcache. apply invalidated_single.
Qed.

Lemma created_post_is_read_back_witness :
  let w' := handle 1 (createPost accept_all hello) quiet in
  posts w' = [new_post hello quiet] /\
  responses 2 (handle 2 (getPost by_owner) w') =
    [Response 200 (JObj [("singlePost", post_json (new_post hello quiet))])].
Proof.
  pose proof (created_post_is_read_back accept_all 1 2 hello by_owner quiet) as H.
  destruct H as (_ & Hposts & _ & Hread); try reflexivity.
  - intros p [].
  - split; [exact Hposts|]. rewrite Hread. vm_compute. reflexivity.
Defined.

(** X5.  When Redis is unreachable while MongoDB and RabbitMQ are
    reachable, a [createPost] or [deletePost] that passes its checks
    applies the write to the collection and publishes its event, and then
    answers 500 with the generic message of its [catch] block: the
    invalidation that follows the publish throws. *)
Theorem cache_outage_fails_a_completed_write validate op rid req w :
  mongo_up w = true -> broker_up w = true -> redis_up w = false ->
  accepted validate op req w = true ->
  let w' := handle rid (write_handler validate op req) w in
  posts w' = applied op req w /\
  published w' = published w ++ announcement op req w /\
  redis w' = redis w /\
  responses rid w' = responses rid w ++ [failure op].
Proof.
  intros Hm Hb Hr Hacc. destruct w as [mu ru ps rd oid t bu pub tr].
  cbn [mongo_up broker_up redis_up] in Hm, Hb, Hr. subst mu bu ru.
  destruct op; unfold accepted in Hacc; apply bool_decide_eq_true_1 in Hacc;
    unfold handle, write_handler, createPost, deletePost, applied, announcement,
      invalidatePostCache, new_post, post_created;
    cbn [posts body next_oid now] in Hacc |- *.
  - rewrite Hacc. destruct (truthy_string (ObjectId oid)) eqn:Hid; simpl; rewrite Hid; simpl;
      repeat split; responses_simpl; reflexivity.
  - destruct Hacc as [p Hp]. destruct (truthy_string (params_id req)) eqn:Hid;
      simpl; rewrite Hp; simpl; repeat split; responses_simpl; reflexivity.
Qed.

Lemma cache_outage_fails_a_completed_write_witness :
  let w' := handle 1 (write_handler accept_all CreatePost hello) redis_down in
  posts w' = [new_post hello redis_down] /\
  published w' = [post_created (new_post hello redis_down)] /\
  responses 1 w' = [failure CreatePost].
Proof.
  pose proof (cache_outage_fails_a_completed_write accept_all CreatePost 1 hello redis_down) as H.
  destruct H as (Hposts & Hpub & _ & Hresp); try reflexivity.
  repeat split; assumption.
Defined.

(** X6.  In every state of the stores and the broker, each of the four
    controllers returns without throwing and sends exactly one response;
    a response with a status of 400 or above has a body of the two members
    [success: false] and [message]. *)
Theorem post_controllers_answer_once validate r rid req w :
  let res := run do_sync do_eff rid (controller validate r req) w in
  fst res = Ok tt /\
  exists a, responses rid (snd res) = responses rid w ++ [a] /\
            (400 <= status a -> error_shape (Js.body a) = true).
Proof.
  cbv zeta. destruct w as [mu ru ps rd oid t bu pub tr].
  destruct r; unfold controller, createPost, getAllPosts, getPost, deletePost,
    invalidatePostCache.
  - destruct (validate (body req)) as [msg|] eqn:Hv;
      [simpl; split; [reflexivity|]; eexists; split;
         [responses_simpl; reflexivity | reflexivity]|].
    destruct (truthy_string (ObjectId oid)) eqn:Hid;
    destruct mu, bu, ru; simpl; rewrite ?Hid; simpl;
      try (destruct (0 <? length _)%nat; simpl);
      (split; [reflexivity|]; eexists; split;
         [responses_simpl; reflexivity | intros H; first [reflexivity | simpl in H; lia]]).
  - destruct ru; simpl;
      [|split; [reflexivity|]; eexists; split;
         [responses_simpl; reflexivity | reflexivity]].
    destruct (rd !! _) as [[d s]|]; simpl;
      [split; [reflexivity|]; eexists; split;
         [responses_simpl; reflexivity | intros H; simpl in H; lia]|].
    destruct mu; simpl; [destruct (0 <=? _); simpl|];
      (split; [reflexivity|]; eexists; split;
         [responses_simpl; reflexivity | intros H; first [reflexivity | simpl in H; lia]]).
  - destruct ru; simpl;
      [|split; [reflexivity|]; eexists; split;
         [responses_simpl; reflexivity | reflexivity]].
    destruct (rd !! _) as [[d s]|]; simpl;
      [split; [reflexivity|]; eexists; split;
         [responses_simpl; reflexivity | intros H; simpl in H; lia]|].
    destruct mu; simpl; [destruct (find _ ps); simpl|];
      (split; [reflexivity|]; eexists; split;
         [responses_simpl; reflexivity | intros H; first [reflexivity | simpl in H; lia]]).
  - destruct (truthy_string (params_id req)) eqn:Hid;
    destruct mu; simpl; try (destruct (find _ ps); simpl);
      try (destruct bu, ru; simpl; rewrite ?Hid; simpl;
           try (destruct (0 <? length _)%nat; simpl));
      (split; [reflexivity|]; eexists; split;
         [responses_simpl; reflexivity | intros H; first [reflexivity | simpl in H; lia]]).
Qed.

End PostFacts.

(** ** media-service *)

Module MediaFacts.
Import MediaService.

(** One record whose deletions both succeed. *)
Lemma loop_body_ok post m w :
  mongo_up w = true -> deletable w m ->
  exists w1, run do_sync do_eff 0 (loop_body post m) w = (Ok tt, w1) /\
    trace w1 = trace w ++ cleanup_events post m /\
    mongo_up w1 = true /\ blob_faults w1 = blob_faults w /\ doc_faults w1 = doc_faults w.
Proof.
  intros Hm [Hb Hd]. destruct w as [mu ms df bs bf tr].
  cbn [mongo_up blob_faults doc_faults] in *.
  subst mu. unfold loop_body. simpl.
  rewrite (bool_decide_eq_false_2 _ Hb). simpl.
  rewrite (bool_decide_eq_false_2 _ Hd). simpl.
  eexists. split; [reflexivity|]. simpl. rewrite <- !app_assoc. repeat split.
Qed.

(** One record for which a deletion fails. *)
Lemma loop_body_fails post m w :
  mongo_up w = true -> publicId m ∈ blob_faults w \/ _id m ∈ doc_faults w ->
  exists e w1, run do_sync do_eff 0 (loop_body post m) w = (Thrown e, w1) /\
    trace w1 = trace w ++ failed_events w m.
Proof.
  intros Hm Hf. destruct w as [mu ms df bs bf tr].
  cbn [mongo_up blob_faults doc_faults] in *.
  subst mu. unfold loop_body, failed_events. cbn [blob_faults]. simpl.
  destruct (bool_decide (publicId m ∈ bf)) eqn:Hb; simpl.
  - do 2 eexists. split; reflexivity.
  - destruct Hf as [Hf|Hf]; [apply bool_decide_eq_false_1 in Hb; contradiction|].
    rewrite (bool_decide_eq_true_2 _ Hf). simpl.
    do 2 eexists. split; [reflexivity|]. simpl. rewrite <- app_assoc. reflexivity.
Qed.

(** The loop runs record by record up to the first failure and throws
    there; by induction on the records that precede the failing one. *)
Lemma loop_stops post pre m rest : forall w,
  mongo_up w = true -> Forall (deletable w) pre ->
  publicId m ∈ blob_faults w \/ _id m ∈ doc_faults w ->
  exists e w1,
    run do_sync do_eff 0 (for_of (pre ++ m :: rest) (loop_body post)) w = (Thrown e, w1) /\
    trace w1 = trace w ++ flat_map (cleanup_events post) pre ++ failed_events w m.
Proof.
  induction pre as [|x pre IH]; intros w Hm Hpre Hf.
  - cbn [app for_of flat_map]. rewrite run_bind.
    destruct (loop_body_fails post m w Hm Hf) as (e & w1 & -> & Ht).
    exists e, w1. split; [reflexivity|exact Ht].
  - apply Forall_cons in Hpre as [Hx Hpre].
    cbn [app for_of flat_map]. rewrite run_bind.
    destruct (loop_body_ok post x w Hm Hx) as (w1 & -> & Ht & Hm1 & Hb1 & Hd1).
    destruct (IH w1 Hm1) as (e & w2 & Hrun & Ht2).
    + eapply Forall_impl; [exact Hpre|]. intros y [? ?]. split; congruence.
    + rewrite Hb1, Hd1. exact Hf.
    + exists e, w2. split; [exact Hrun|].
      rewrite Ht2, Ht. unfold failed_events. rewrite Hb1. rewrite <- !app_assoc. reflexivity.
Qed.

(** C4, as amended.  The handler takes the media records of the message one
    after the other.  When, after the records [pre] have been cleaned up, the
    deletion of the blob or of the metadata record of [m] fails, the handler
    logs the failure and ends without throwing; for the records [rest] that
    follow [m] it attempts nothing. *)
Theorem cleanup_stops_at_first_failure ev w pre m rest :
  mongo_up w = true ->
  found ev w = pre ++ m :: rest ->
  Forall (deletable w) pre ->
  publicId m ∈ blob_faults w \/ _id m ∈ doc_faults w ->
  fst (deliver ev w) = Ok tt /\
  trace (snd (deliver ev w)) =
    trace w ++ [Called (MediaFindIn (mediaIds ev))]
            ++ flat_map (cleanup_events (postId ev)) pre
            ++ failed_events w m
            ++ [Logged Err "Error occured while media deletion"].
Proof.
  intros Hm Hfound Hpre Hf.
  unfold deliver, handlePostDeleted. rewrite run_try_catch, run_bind.
  assert (Hfind : run do_sync do_eff 0 (await (MediaFindIn (mediaIds ev))) w =
                  (Ok (pre ++ m :: rest), note (Called (MediaFindIn (mediaIds ev))) w)).
  { destruct w as [mu ms df bs bf tr]. cbn [mongo_up] in Hm. subst mu.
    unfold found in Hfound. cbn [medias] in Hfound. simpl. rewrite Hfound. reflexivity. }
  rewrite Hfind. rewrite run_bind.
  set (w0 := note (Called (MediaFindIn (mediaIds ev))) w).
  assert (H0 : mongo_up w0 = true /\ blob_faults w0 = blob_faults w /\
               doc_faults w0 = doc_faults w /\
               trace w0 = trace w ++ [Called (MediaFindIn (mediaIds ev))]).
  { subst w0. destruct w; simpl in *. repeat split; assumption. }
  destruct H0 as (Hm0 & Hb0 & Hd0 & Ht0).
  destruct (loop_stops (postId ev) pre m rest w0 Hm0) as (e & w1 & Hrun & Ht1).
  - eapply Forall_impl; [exact Hpre|]. intros y [? ?]. split; congruence.
  - rewrite Hb0, Hd0. exact Hf.
  - change (fun media : media => _) with (loop_body (postId ev)).
    rewrite Hrun. destruct w1 as [mu ms df bs bf tr]. simpl. split; [reflexivity|].
    simpl in Ht1. rewrite Ht1, Ht0. unfold failed_events. rewrite Hb0.
    rewrite <- !app_assoc. reflexivity.
Qed.

Import Scenario.Medias.

(** C4 as stated fails: of two records, the blob of the first cannot be
    deleted and that of the second can; the handler stops at the first, and
    neither the blob nor the record of the second is touched. *)
Lemma cleanup_abandons_later_records :
  let w' := snd (deliver deleted first_blob_stuck) in
  found deleted first_blob_stuck = [m1; m2] /\
  bool_decide (publicId m2 ∈ blob_faults first_blob_stuck) = false /\
  trace w' = [Called (MediaFindIn ["m1"; "m2"]);
              Called (DeleteMediaFromCloudinary "blob1");
              Logged Err "Error occured while media deletion"] /\
  medias w' = [m1; m2] /\
  bool_decide ("blob2" ∈ blobs w') = true.
Proof. vm_compute. repeat split. Qed.

Lemma cleanup_stops_at_first_failure_witness :
  fst (deliver deleted first_blob_stuck) = Ok tt /\
  trace (snd (deliver deleted first_blob_stuck)) =
    [Called (MediaFindIn ["m1"; "m2"]);
     Called (DeleteMediaFromCloudinary "blob1");
     Logged Err "Error occured while media deletion"].
Proof.
  pose proof (cleanup_stops_at_first_failure deleted first_blob_stuck [] m1 [m2]) as H.
  destruct H as (Hok & Htrace).
  - reflexivity.
  - vm_compute. reflexivity.
  - apply Forall_nil_2.
  - left. change ("blob1" ∈ ({["blob1"]} : gset string)). apply elem_of_singleton_2. reflexivity.
  - split; [exact Hok|]. rewrite Htrace. vm_compute. reflexivity.
Defined.




(** One record whose deletions both succeed: what is left of the
    collection and of the blobs. *)
Lemma loop_body_deletes post m w :
  mongo_up w = true -> deletable w m ->
  exists w1, run do_sync do_eff 0 (loop_body post m) w = (Ok tt, w1) /\
    trace w1 = trace w ++ cleanup_events post m /\
    medias w1 = remove_first (has_id (_id m)) (medias w) /\
    blobs w1 = blobs w ∖ {[publicId m]} /\
    mongo_up w1 = true /\ blob_faults w1 = blob_faults w /\ doc_faults w1 = doc_faults w.
Proof.
  intros Hm [Hb Hd]. destruct w as [mu ms df bs bf tr].
  cbn [mongo_up blob_faults doc_faults] in *.
  subst mu. unfold loop_body. simpl.
  rewrite (bool_decide_eq_false_2 _ Hb). simpl.
  rewrite (bool_decide_eq_false_2 _ Hd). simpl.
  eexists. split; [reflexivity|]. simpl. rewrite <- !app_assoc. repeat split.
Qed.

Lemma loop_deletes post ms : forall w,
  mongo_up w = true -> Forall (deletable w) ms ->
  exists w1, run do_sync do_eff 0 (for_of ms (loop_body post)) w = (Ok tt, w1) /\
    trace w1 = trace w ++ flat_map (cleanup_events post) ms /\
    medias w1 = fold_left (fun l m => remove_first (has_id (_id m)) l) ms (medias w) /\
    blobs w1 = fold_left (fun b m => b ∖ {[publicId m]}) ms (blobs w).
Proof.
  induction ms as [|m ms IH]; intros w Hm Hall.
  - exists w. cbn [for_of flat_map fold_left]. rewrite app_nil_r. repeat split.
  - apply Forall_cons in Hall as [Hx Hall]. cbn [for_of flat_map fold_left].
    rewrite run_bind.
    destruct (loop_body_deletes post m w Hm Hx) as (w1 & -> & Ht & Hms & Hbs & Hm1 & Hb1 & Hd1).
    destruct (IH w1 Hm1) as (w2 & Hrun & Ht2 & Hms2 & Hbs2).
    + eapply Forall_impl; [exact Hall|]. intros y [? ?]. split; congruence.
    + exists w2. split; [exact Hrun|]. rewrite Ht2, Ht, Hms2, Hms, Hbs2, Hbs.
      rewrite <- app_assoc. repeat split.
Qed.

(** Removing, one after the other, the records a filter selects leaves
    the records it does not select. *)
Lemma remove_selected (sel : media -> bool) ms :
  (forall m m', _id m = _id m' -> sel m = sel m') ->
  fold_left (fun l m => remove_first (has_id (_id m)) l) (List.filter sel ms) ms =
  List.filter (fun m => negb (sel m)) ms.
Proof.
  intros Hsel.
  assert (Hkeep : forall fs x l, sel x = false -> Forall (fun m => sel m = true) fs ->
            fold_left (fun l m => remove_first (has_id (_id m)) l) fs (x :: l) =
            x :: fold_left (fun l m => remove_first (has_id (_id m)) l) fs l).
  { intros fs. induction fs as [|m fs IH]; intros x l Hx Hall; [reflexivity|].
    apply Forall_cons in Hall as [Hm Hall]. cbn [fold_left remove_first].
    destruct (has_id (_id m) x) eqn:Hid.
    - unfold has_id in Hid. apply String.eqb_eq in Hid.
      rewrite (Hsel x m Hid) in Hx. congruence.
    - apply IH; assumption. }
  induction ms as [|x ms IH]; [reflexivity|]. cbn [List.filter].
  destruct (sel x) eqn:Hx; cbn [negb fold_left remove_first].
  - assert (Hid : has_id (_id x) x = true) by apply String.eqb_refl.
    rewrite Hid. exact IH.
  - rewrite Hkeep; [f_equal; exact IH | exact Hx |].
    apply Forall_forall. intros m Hm. apply list_elem_of_In, filter_In in Hm as [_ Hm].
    exact Hm.
Qed.

Lemma blobs_removed (ms : list media) (bs : gset string) b :
  b ∈ fold_left (fun b m => b ∖ {[publicId m]}) ms bs <->
  b ∈ bs /\ ~ In b (map publicId ms).
Proof.
  revert bs. induction ms as [|m ms IH]; intros bs; cbn [fold_left map In]; [tauto|].
  rewrite IH. rewrite elem_of_difference, elem_of_singleton. intuition congruence.
Qed.

(** X8.  When MongoDB is reachable and no deletion fails,
    [handlePostDeleted] removes from the Media collection every record
    whose [_id] is among the [mediaIds] of the message and no other,
    removes the blobs of exactly those records from Cloudinary, and logs
    each deletion and the completion. *)
Theorem cleanup_removes_every_found_record ev w :
  mongo_up w = true -> Forall (deletable w) (found ev w) ->
  let w' := snd (deliver ev w) in
  medias w' = List.filter (fun m => negb (bool_decide (_id m ∈ mediaIds ev))) (medias w) /\
  (forall b, b ∈ blobs w' <-> b ∈ blobs w /\ ~ In b (map publicId (found ev w))) /\
  trace w' = trace w ++ [Called (MediaFindIn (mediaIds ev))]
                     ++ flat_map (cleanup_events (postId ev)) (found ev w)
                     ++ [Logged Info "Processed deletion of media for post id"].
Proof.
  intros Hm Hall w'. subst w'.
  unfold deliver, handlePostDeleted. rewrite run_try_catch, run_bind.
  assert (Hfind : run do_sync do_eff 0 (await (MediaFindIn (mediaIds ev))) w =
                  (Ok (found ev w), note (Called (MediaFindIn (mediaIds ev))) w)).
  { destruct w as [mu ms df bs bf tr]. cbn [mongo_up] in Hm. subst mu. reflexivity. }
  rewrite Hfind. rewrite run_bind.
  set (w0 := note (Called (MediaFindIn (mediaIds ev))) w).
  assert (H0 : mongo_up w0 = true /\ blob_faults w0 = blob_faults w /\
               doc_faults w0 = doc_faults w /\ medias w0 = medias w /\ blobs w0 = blobs w /\
               trace w0 = trace w ++ [Called (MediaFindIn (mediaIds ev))]).
  { subst w0. destruct w; simpl in *. repeat split; assumption. }
  destruct H0 as (Hm0 & Hb0 & Hd0 & Hms0 & Hbs0 & Ht0).
  destruct (loop_deletes (postId ev) (found ev w) w0 Hm0) as (w1 & Hrun & Ht1 & Hms1 & Hbs1).
  { eapply Forall_impl; [exact Hall|]. intros y [? ?]. split; congruence. }
  change (for_of (found ev w) _) with (for_of (found ev w) (loop_body (postId ev))).
  rewrite Hrun. destruct w1 as [mu ms df bs bf tr]. cbn [medias blobs trace] in *. simpl.
  split; [|split].
  - rewrite Hms1, Hms0. unfold found. apply remove_selected.
    intros m m' Heq. rewrite Heq. reflexivity.
  - intros b. rewrite Hbs1, Hbs0. apply blobs_removed.
  - rewrite Ht1, Ht0. rewrite <- !app_assoc. reflexivity.
Qed.

Lemma cleanup_removes_every_found_record_witness :
  medias (snd (deliver deleted all_well)) = [m3] /\
  ("blob3" ∈ blobs (snd (deliver deleted all_well)) /\
   "blob1" ∉ blobs (snd (deliver deleted all_well))).
Proof.
  pose proof (cleanup_removes_every_found_record deleted all_well) as H.
  destruct H as (Hmedias & Hblobs & _).
  - reflexivity.
  - change (found deleted all_well) with [m1; m2].
    repeat constructor; apply not_elem_of_empty.
  - split; [rewrite Hmedias; vm_compute; reflexivity|]. split.
    + apply Hblobs. split.
      * change ("blob3" ∈ ({["blob1"; "blob2"; "blob3"]} : gset string)). set_solver.
      * change (found deleted all_well) with [m1; m2]. cbn [map publicId In].
        intros [H|[H|[]]]; discriminate H.
    + intros Hin. apply Hblobs in Hin as [_ Hnot]. apply Hnot.
      change (found deleted all_well) with [m1; m2]. left. reflexivity.
Defined.
End MediaFacts.

(** ** media-service: the controllers *)

Module MediaControllerFacts.
Import MediaController.

Local Opaque ObjectId.

Ltac responses_simpl :=
  unfold responses; cbn [trace];
  repeat (rewrite ?omap_app, ?app_nil_r, <- ?app_assoc; cbn [omap list_omap app]).

Section Facts.
Variable uploadMediaToCloudinary : file -> outcome upload_result.
Local Abbreviation handle' := (handle uploadMediaToCloudinary).

(** X9.  [getAllMedias] answers 200 with all media records when MongoDB
    is reachable.  When the query fails it sends no response and logs
    nothing: its [catch] block reads the unbound name [error], and the
    handler ends by throwing the ReferenceError. *)
Theorem getAllMedias_answers_only_when_the_store_does w :
  handle' getAllMedias w =
  if mongo_up w
  then (Ok tt, note (Responded (listing (medias w))) (note (Called MediaFind) w))
  else (Thrown (Error "error is not defined" None), note (Called MediaFind) w).
Proof.
  destruct w as [mu ms n tr]. destruct mu; reflexivity.
Qed.

(** X10.  When Cloudinary accepts the file and MongoDB is reachable,
    [uploadMedia] saves one record with a fresh [_id], the [public_id] and
    [secure_url] Cloudinary returned, the name and type of the file and
    the [userId] of the caller, and answers 201 with the [_id] and the
    URL; a [getAllMedias] handled next lists the record. *)
Theorem uploadMedia_records_what_cloudinary_returned req f res w :
  req_file req = Some f -> uploadMediaToCloudinary f = Ok res -> mongo_up w = true ->
  let m := new_media req f res w in
  let w1 := snd (handle' (uploadMedia req) w) in
  fst (handle' (uploadMedia req) w) = Ok tt /\
  responses w1 = responses w ++ [uploaded m] /\
  medias w1 = medias w ++ [m] /\
  responses (snd (handle' getAllMedias w1)) = responses w1 ++ [listing (medias w ++ [m])].
Proof.
  intros Hf Hup Hm m w1. subst m w1. destruct w as [mu ms n tr].
  cbn [mongo_up] in Hm. subst mu.
  unfold handle, uploadMedia, getAllMedias, new_media, uploaded. rewrite Hf. simpl.
  rewrite Hup. simpl. repeat split; responses_simpl; reflexivity.
Qed.

(** X11.  When Cloudinary has accepted the file and saving the record
    fails, [uploadMedia] answers 500 with "Error uploading media" and the
    collection is as before: after the upload the handler makes the
    failed save, logs and answers, and nothing else, so no record refers
    to the uploaded file. *)
Theorem failed_save_leaves_the_upload_unrecorded req f res w :
  req_file req = Some f -> uploadMediaToCloudinary f = Ok res -> mongo_up w = false ->
  let w1 := snd (handle' (uploadMedia req) w) in
  responses w1 = responses w ++ [upload_failed] /\
  medias w1 = medias w /\
  trace w1 = trace w ++
    [Logged Info "Starting file upload";
     Logged Info ("File details: name=" +:+ originalname f +:+ ", type=" +:+ mimetype f);
     Logged Info "Uploading file to Cloudinary...";
     Called (UploadMediaToCloudinary f);
     Logged Info ("Cloudinary upload successful. Public ID: " +:+ public_id res);
     Called (MediaSave (new_media req f res w));
     Logged Err "Error uploading media";
     Responded upload_failed].
Proof.
  intros Hf Hup Hm w1. subst w1. destruct w as [mu ms n tr].
  cbn [mongo_up] in Hm. subst mu.
  unfold handle, uploadMedia, new_media, upload_failed. rewrite Hf. simpl.
  rewrite Hup. simpl. repeat split.
  - responses_simpl. reflexivity.
  - rewrite <- !app_assoc. reflexivity.
Qed.
End Facts.

Import Scenario.Uploads.

Lemma uploadMedia_records_what_cloudinary_returned_witness :
  let m := MediaService.Media (ObjectId 1) "blob9" "a.png" "image/png" "https://cdn/blob9" "u1" in
  let w1 := snd (handle cloudinary (uploadMedia with_photo) empty_store) in
  medias w1 = [m] /\
  responses (snd (handle cloudinary getAllMedias w1)) = [uploaded m; listing [m]].
Proof.
  pose proof (uploadMedia_records_what_cloudinary_returned cloudinary with_photo photo
                (UploadResult "blob9" "https://cdn/blob9") empty_store) as H.
  destruct H as (_ & Hresp & Hmedias & Hlist); try reflexivity.
  split; [exact Hmedias|]. rewrite Hlist, Hresp. reflexivity.
Defined.

Lemma failed_save_leaves_the_upload_unrecorded_witness :
  let w1 := snd (handle cloudinary (uploadMedia with_photo) store_down) in
  responses w1 = [upload_failed] /\ medias w1 = [] /\
  In (Called (UploadMediaToCloudinary photo)) (trace w1).
Proof.
  pose proof (failed_save_leaves_the_upload_unrecorded cloudinary with_photo photo
                (UploadResult "blob9" "https://cdn/blob9") store_down) as H.
  destruct H as (Hresp & Hmedias & Htrace); try reflexivity.
  split; [exact Hresp|]. split; [exact Hmedias|].
  rewrite Htrace. cbn [trace store_down app In]. right. right. right. left. reflexivity.
Defined.

End MediaControllerFacts.

(** ** identity-service *)

Module IdentityFacts.
Import IdentityService.

Local Opaque ObjectId.

Ltac responses_simpl :=
  unfold responses; cbn [trace];
  repeat (rewrite ?omap_app, ?app_nil_r, <- ?app_assoc; cbn [omap list_omap app]).

Ltac responses_simpl_in H :=
  unfold responses in H; cbn [trace] in H;
  repeat (rewrite ?omap_app, ?app_nil_r, <- ?app_assoc in H; cbn [omap list_omap app] in H).

Ltac wrong_response H :=
  exfalso; responses_simpl_in H; apply app_inv_head in H; discriminate H.

Lemma findOne_Some {A} (f : A -> bool) (m : gmap string A) k a :
  findOne f m = Some (k, a) -> m !! k = Some a /\ f a = true.
Proof.
  unfold findOne. intros H. apply find_some in H as [Hin Hf].
  apply list_elem_of_In, elem_of_map_to_list in Hin. split; assumption.
Qed.

Lemma findOne_None {A} (f : A -> bool) (m : gmap string A) :
  (forall k a, m !! k = Some a -> f a = false) -> findOne f m = None.
Proof.
  intros H. unfold findOne. destruct (find _ _) as [[k a]|] eqn:Hfind; [|reflexivity].
  apply find_some in Hfind as [Hin Hf].
  apply list_elem_of_In, elem_of_map_to_list in Hin.
  simpl in Hf. rewrite (H k a Hin) in Hf. discriminate.
Qed.

(** C10.  For credentials that pass validation, the login answer is the same
    response, status 400 with [success: false] and the message
    "Invalid Credentials", when no user has the e-mail address and when a
    user has it and the password does not match. *)
Theorem login_failures_indistinguishable validate jwt_sign argon2_verify body w1 w2 id u :
  validate body = None ->
  mongo_up w1 = true -> mongo_up w2 = true ->
  findOne (fun x => String.eqb (email x) (body_email body)) (users w1) = None ->
  findOne (fun x => String.eqb (email x) (body_email body)) (users w2) = Some (id, u) ->
  argon2_verify (password u) (body_password body) = Ok false ->
  responses (handle jwt_sign argon2_verify (loginUser validate body) w1) =
    responses w1 ++ [invalid_credentials] /\
  responses (handle jwt_sign argon2_verify (loginUser validate body) w2) =
    responses w2 ++ [invalid_credentials].
Proof.
  intros Hv Hm1 Hm2 Hnone Hsome Hpw.
  destruct w1 as [mu1 us1 ts1 n1 t1 en1 d1 k1 tr1], w2 as [mu2 us2 ts2 n2 t2 en2 d2 k2 tr2].
  cbn [mongo_up users] in *. subst mu1 mu2.
  unfold handle, loginUser. rewrite Hv. simpl.
  rewrite Hnone, Hsome. simpl. rewrite Hpw. simpl.
  split; responses_simpl; reflexivity.
Qed.

(** C8.  Let [t] be the text of one stored refresh token, and let the token
    drawn during the call differ from [t].  After a refresh call that
    presents [t] and succeeds, no stored token carries [t], and a second
    refresh call that presents [t] is answered 401. *)
Theorem refresh_token_single_use jwt_sign argon2_verify w t r :
  stored_once t w ->
  entropy w (drawn w) <> t ->
  let w1 := handle jwt_sign argon2_verify (refreshTokenUser (RefreshBody (Some t))) w in
  let w2 := handle jwt_sign argon2_verify (refreshTokenUser (RefreshBody (Some t))) w1 in
  responses w1 = responses w ++ [r] -> refreshed r ->
  stored t w1 = None /\
  responses w2 = responses w1 ++ [invalid_token].
Proof.
  intros Huniq Hfresh w1 w2 Hack (access & fresh & ->).
  unfold stored_once in Huniq. unfold stored.
  assert (Hstate : mongo_up w1 = true /\ String.eqb t "" = false /\
            findOne (fun x => String.eqb (token x) t) (refreshTokens w1) = None).
  { subst w1 w2. destruct w as [mu us ts n now en d k tr].
    cbn [refreshTokens entropy drawn] in Huniq, Hfresh.
    unfold handle, refreshTokenUser in *. cbn [body_refreshToken falsy] in *.
    destruct (String.eqb t "") eqn:Ht; [simpl in Hack; wrong_response Hack|].
    destruct mu; [|simpl in Hack; wrong_response Hack].
    cbn [default] in *. simpl in Hack |- *.
    destruct (findOne _ ts) as [[id0 st]|] eqn:Hfind; [|simpl in Hack; wrong_response Hack].
    simpl in Hack |- *.
    destruct (expiresAt st <? now); [simpl in Hack; wrong_response Hack|].
    simpl in Hack |- *.
    destruct (us !! user_id st) as [usr|]; [|simpl in Hack; wrong_response Hack].
    simpl in Hack |- *.
    destruct (ts !! ObjectId n) as [clash|] eqn:Hclash; [simpl in Hack; wrong_response Hack|].
    simpl in Hack |- *. repeat split.
    apply findOne_Some in Hfind as [Hid0 Htok]. apply String.eqb_eq in Htok.
    apply findOne_None. intros j a Hj. cbn [refreshTokens] in Hj.
    apply lookup_delete_Some in Hj as [Hne Hj].
    apply lookup_insert_Some in Hj as [[<- <-]|[Hne' Hj]].
    - simpl. apply String.eqb_neq. exact Hfresh.
    - apply String.eqb_neq. intros Ha. apply Hne.
      exact (Huniq _ _ _ _ Hid0 Hj Htok Ha). }
  destruct Hstate as (Hm & Ht & Hgone). split; [exact Hgone|].
  subst w2. clearbody w1. clear Hack.
  destruct w1 as [mu us ts n now en d k tr]. cbn [mongo_up refreshTokens] in *. subst mu.
  unfold handle, refreshTokenUser. cbn [body_refreshToken falsy]. rewrite Ht.
  simpl. rewrite Hgone. simpl. responses_simpl. reflexivity.
Qed.

Import Scenario.Identity.

Lemma login_failures_indistinguishable_witness :
  responses (handle jwt_sign argon2_verify (loginUser accept_all wrong_password) nobody) =
    [invalid_credentials] /\
  responses (handle jwt_sign argon2_verify (loginUser accept_all wrong_password) registered) =
    [invalid_credentials].
Proof.
  apply (login_failures_indistinguishable accept_all jwt_sign argon2_verify
           wrong_password nobody registered (ObjectId 1) alice);
    vm_compute; reflexivity.
Defined.

Lemma refresh_token_single_use_witness :
  let once := handle jwt_sign argon2_verify (refreshTokenUser (RefreshBody (Some "t0")))
                     registered in
  let twice := handle jwt_sign argon2_verify (refreshTokenUser (RefreshBody (Some "t0")))
                      once in
  stored "t0" once = None /\ responses twice = responses once ++ [invalid_token].
Proof.
  apply (refresh_token_single_use jwt_sign argon2_verify registered "t0"
           (Response 200
              (JObj [("success", JBool true);
                     ("accessToken",
                      JStr (jwt_sign (JObj [("userId", JStr (ObjectId 1));
                                            ("username", JStr "alice")])
                                     "secret" "60m" 1000));
                     ("refreshToken", JStr "t1")]))).
  - intros i j a b Hi Hj _ _. unfold registered in Hi, Hj. cbn [refreshTokens] in Hi, Hj.
    apply lookup_singleton_Some in Hi as [<- _], Hj as [<- _]. reflexivity.
  - vm_compute. discriminate.
  - vm_compute. reflexivity.
  - eexists _, _. reflexivity.
Defined.


(** *** Issuing and rotating tokens *)

Lemma findOne_unique {A} (f : A -> bool) (m : gmap string A) k a :
  m !! k = Some a -> f a = true ->
  (forall j b, m !! j = Some b -> f b = true -> j = k) ->
  findOne f m = Some (k, a).
Proof.
  intros Hk Hf Huniq. destruct (findOne f m) as [[j b]|] eqn:Hfind.
  - apply findOne_Some in Hfind as [Hj Hb]. pose proof (Huniq j b Hj Hb) as ->.
    rewrite Hk in Hj. congruence.
  - unfold findOne in Hfind.
    assert (Hin : In (k, a) (map_to_list m))
      by (apply list_elem_of_In, elem_of_map_to_list; exact Hk).
    apply (find_none _ _ Hfind) in Hin. simpl in Hin. congruence.
Qed.

Section Refresh.
Variable jwt_sign : json -> string -> string -> Z -> string.
Variable argon2_verify : string -> string -> outcome bool.

End Refresh.

Section Tokens.
Variable jwt_sign : json -> string -> string -> Z -> string.
Variable argon2_verify : string -> string -> outcome bool.

(** What a login does for a registered user who presents the right
    password. *)
Lemma login_succeeds validate body w id u :
  validate body = None -> mongo_up w = true ->
  findOne (fun x => String.eqb (email x) (body_email body)) (users w) = Some (id, u) ->
  argon2_verify (password u) (body_password body) = Ok true ->
  refreshTokens w !! ObjectId (next_oid w) = None ->
  let w1 := handle jwt_sign argon2_verify (loginUser validate body) w in
  responses w1 = responses w ++
    [Accounts.logged_in (jwt_sign (Accounts.access_payload id u) (JWT_SECRET_KEY w) "60m" (now w))
                        (entropy w (drawn w)) id] /\
  refreshTokens w1 =
    <[ObjectId (next_oid w) :=
        RefreshToken (entropy w (drawn w)) id (now w + Accounts.seven_days)]> (refreshTokens w) /\
  users w1 = users w /\ mongo_up w1 = true /\ now w1 = now w.
Proof.
  intros Hv Hm Hfind Hpw Hfresh w1. subst w1.
  destruct w as [mu us ts n now en d k tr].
  cbn [mongo_up refreshTokens users next_oid] in *. subst mu.
  unfold handle, loginUser. rewrite Hv. simpl. rewrite Hfind. simpl. rewrite Hpw. simpl.
  rewrite Hfresh. simpl. repeat split. responses_simpl. reflexivity.
Qed.



(** X14.  A refresh call that is answered 400 or 401 (no token in the
    body, an unknown token, an expired token, a token whose user is gone)
    leaves the stored tokens and the users as they were; in particular it
    does not delete an expired token. *)
Theorem refused_refresh_changes_nothing body w r :
  let w1 := handle jwt_sign argon2_verify (refreshTokenUser body) w in
  responses w1 = responses w ++ [r] -> status r = 400 \/ status r = 401 ->
  refreshTokens w1 = refreshTokens w /\ users w1 = users w.
Proof.
  intros w1 Hresp Hstatus. subst w1.
  assert (Hr : status r <> 200 /\ status r <> 500) by (destruct Hstatus as [-> | ->]; lia).
  clear Hstatus. destruct Hr as [H200 H500].
  destruct w as [mu us ts n now en d k tr]. destruct body as [rt].
  unfold handle, refreshTokenUser in *. cbn [body_refreshToken] in *.
  destruct (falsy rt); [simpl; split; reflexivity|].
  destruct mu; simpl in Hresp |- *.
  - destruct (findOne _ ts) as [[id0 st]|]; simpl in Hresp |- *; [|split; reflexivity].
    destruct (expiresAt st <? now); simpl in Hresp |- *; [split; reflexivity|].
    destruct (us !! user_id st) as [usr|]; simpl in Hresp |- *; [|split; reflexivity].
    exfalso. destruct (ts !! ObjectId n); simpl in Hresp;
      responses_simpl_in Hresp; apply app_inv_head in Hresp; injection Hresp as <-;
      [apply H500 | apply H200]; reflexivity.
  - split; reflexivity.
Qed.
End Tokens.



Lemma refused_refresh_changes_nothing_witness :
  let w1 := IdentityService.handle jwt_sign argon2_verify
              (refreshTokenUser (RefreshBody (Some "t0"))) lapsed in
  responses w1 = [invalid_token] /\ refreshTokens w1 = refreshTokens lapsed.
Proof.
  assert (Hresp : responses (IdentityService.handle jwt_sign argon2_verify
                               (refreshTokenUser (RefreshBody (Some "t0"))) lapsed) =
                  responses lapsed ++ [invalid_token]) by (vm_compute; reflexivity).
  pose proof (refused_refresh_changes_nothing jwt_sign argon2_verify
                (RefreshBody (Some "t0")) lapsed invalid_token Hresp) as H.
  destruct H as (Hkept & _); [right; reflexivity|].
  split; [exact Hresp | exact Hkept].
Defined.

End IdentityFacts.

(** ** identity-service: registration and logout *)

Module AccountsFacts.
Import IdentityService IdentityFacts Accounts.

Local Opaque ObjectId.

Lemma findOne_is_Some {A} (f : A -> bool) (m : gmap string A) k a :
  m !! k = Some a -> f a = true -> exists j b, findOne f m = Some (j, b).
Proof.
  intros Hk Hf. destruct (findOne f m) as [[j b]|] eqn:Hfind; [eauto|].
  unfold findOne in Hfind.
  assert (Hin : In (k, a) (map_to_list m))
    by (apply list_elem_of_In, elem_of_map_to_list; exact Hk).
  apply (find_none _ _ Hfind) in Hin. simpl in Hin. congruence.
Qed.

Ltac answered :=
  split; [reflexivity|]; eexists; split;
    [responses_simpl; reflexivity | intros H; first [reflexivity | simpl in H; lia]].

(** Follows a handler along every path it can take, to its answer. *)
Ltac explore :=
  simpl;
  first [ answered
        | match goal with
          | |- context [match ?x with _ => _ end] => innermost x; explore
          end ].

Section Facts.
Variable jwt_sign : json -> string -> string -> Z -> string.
Variable argon2_verify : string -> string -> outcome bool.
Variable argon2_hash : string -> outcome string.

Local Abbreviation handle' := (Accounts.handle jwt_sign argon2_verify argon2_hash).
Local Abbreviation run' :=
  (run (Accounts.do_sync jwt_sign) (Accounts.do_eff argon2_verify argon2_hash)).

(** A program of the login controllers runs here as it runs there. *)
Lemma run_lift {R} (p : IdentityService.program R) rid w :
  run' rid (lift p) w =
  run (IdentityService.do_sync jwt_sign) (IdentityService.do_eff argon2_verify) rid p w.
Proof.
  revert w. induction p as [a|e|X c k IH|X c k IH]; intros w; simpl; try reflexivity.
  - destruct (IdentityService.do_sync jwt_sign X rid c w) as [x w1]. apply IH.
  - destruct (IdentityService.do_eff argon2_verify X rid c w) as [o w1]. apply IH.
Qed.

(** X15.  A registration that passes validation while a stored user has
    the e-mail address or the username of the body (both compared after
    trimming) is answered 400 with "User already exists"; no user and no
    token is stored. *)
Theorem registration_refuses_a_taken_name validate body w id u :
  validate body = None -> mongo_up w = true ->
  users w !! id = Some u ->
  email u = trim (reg_email body) \/ username u = trim (reg_username body) ->
  let w1 := handle' (registerUser validate body) w in
  responses w1 = responses w ++ [user_exists] /\
  users w1 = users w /\ refreshTokens w1 = refreshTokens w.
Proof.
  intros Hv Hm Hid Htaken w1. subst w1.
  destruct (findOne_is_Some
              (fun x => String.eqb (email x) (trim (reg_email body)) ||
                        String.eqb (username x) (trim (reg_username body)))
              (users w) id u Hid) as (j & b & Hfind).
  { apply orb_true_iff. destruct Htaken as [-> | ->]; [left|right]; apply String.eqb_refl. }
  destruct w as [mu us ts n now en d k tr]. cbn [mongo_up users] in *. subst mu.
  unfold Accounts.handle, registerUser. rewrite Hv. simpl. rewrite Hfind. simpl.
  repeat split. responses_simpl. reflexivity.
Qed.

(** X16.  A registration with a new e-mail address and username answers
    201 with an access and a refresh token and stores the user with the
    trimmed username, the e-mail address and the argon2 hash of the
    password, never the password itself.  A login with the same e-mail
    address and password handled next answers 200 for that user, as long
    as argon2 verifies the password against the hash it made. *)
Theorem registered_user_can_log_in validateR validateL body w hash :
  validateR body = None ->
  validateL (LoginBody (reg_email body) (reg_password body)) = None ->
  mongo_up w = true ->
  trim (reg_email body) = reg_email body -> reg_email body <> "" ->
  trim (reg_username body) <> "" -> reg_password body <> "" ->
  (forall j b, users w !! j = Some b ->
     email b <> reg_email body /\ username b <> trim (reg_username body)) ->
  argon2_hash (reg_password body) = Ok hash ->
  argon2_verify hash (reg_password body) = Ok true ->
  refreshTokens w !! ObjectId (N.succ (next_oid w)) = None ->
  let id := ObjectId (next_oid w) in
  let saved := User (trim (reg_username body)) (reg_email body) hash in
  let w1 := handle' (registerUser validateR body) w in
  let w2 := IdentityService.handle jwt_sign argon2_verify
              (loginUser validateL (LoginBody (reg_email body) (reg_password body))) w1 in
  refreshTokens w1 !! ObjectId (next_oid w1) = None ->
  responses w1 = responses w ++
    [registered (jwt_sign (access_payload id saved) (JWT_SECRET_KEY w) "60m" (now w))
                (entropy w (drawn w))] /\
  users w1 = <[id := saved]> (users w) /\
  exists access fresh, responses w2 = responses w1 ++ [logged_in access fresh id].
Proof.
  intros HvR HvL Hm Htrim He Hu Hp Hfree Hhash Hverify Hfresh id saved w1 w2 Hfresh1.
  assert (Hnone : findOne (fun x => String.eqb (email x) (trim (reg_email body)) ||
                                    String.eqb (username x) (trim (reg_username body)))
                          (users w) = None).
  { apply findOne_None. intros j b Hj. destruct (Hfree j b Hj) as [H1 H2].
    rewrite Htrim. apply orb_false_iff. split; apply String.eqb_neq; assumption. }
  assert (Hnone' : findOne (fun x => String.eqb (email x) (reg_email body)) (users w) = None).
  { apply findOne_None. intros j b Hj. destruct (Hfree j b Hj) as [H1 _].
    apply String.eqb_neq. exact H1. }
  assert (Hreg : responses w1 = responses w ++
            [registered (jwt_sign (access_payload id saved) (JWT_SECRET_KEY w) "60m" (now w))
                        (entropy w (drawn w))] /\
            users w1 = <[id := saved]> (users w) /\ mongo_up w1 = true).
  { subst w1 id saved. destruct w as [mu us ts n now en d k tr].
    cbn [mongo_up users refreshTokens next_oid JWT_SECRET_KEY entropy drawn
         IdentityService.now] in *. subst mu.
    unfold Accounts.handle, registerUser. rewrite HvR. simpl. rewrite Hnone. simpl.
    unfold required_paths, new_user. cbn [username email password]. rewrite Htrim.
    rewrite (PostFacts.nonempty_eqb _ He), (PostFacts.nonempty_eqb _ Hu),
      (PostFacts.nonempty_eqb _ Hp). simpl.
    rewrite Hhash. simpl. rewrite Hnone'. simpl. rewrite Hfresh. simpl.
    repeat split. responses_simpl. reflexivity. }
  destruct Hreg as (Hresp & Husers & Hm1). split; [exact Hresp|]. split; [exact Husers|].
  edestruct (login_succeeds jwt_sign argon2_verify validateL
               (LoginBody (reg_email body) (reg_password body)) w1 id saved)
    as (Hresp2 & _); [exact HvL | exact Hm1 | | exact Hverify | exact Hfresh1 | ].
  - rewrite Husers. cbn [body_email]. apply findOne_unique.
    + apply lookup_insert_eq.
    + apply String.eqb_refl.
    + intros j b Hj Hb. apply lookup_insert_Some in Hj as [[<- _]|[_ Hj]]; [reflexivity|].
      apply String.eqb_eq in Hb. destruct (Hfree j b Hj) as [H1 _]. contradiction.
  - eexists _, _. exact Hresp2.
Qed.

(** X17.  With MongoDB reachable, a logout that presents a token text is
    answered 200 with "Logged out successfully" whether or not the token
    is stored; it deletes the record that carries the text and no record
    that carries another one, and a refresh call that presents the text
    next is answered 401. *)
Theorem logout_revokes_the_token w t :
  mongo_up w = true -> t <> "" -> stored_once t w ->
  let w1 := handle' (logoutUser (RefreshBody (Some t))) w in
  let w2 := IdentityService.handle jwt_sign argon2_verify
              (refreshTokenUser (RefreshBody (Some t))) w1 in
  responses w1 = responses w ++ [logged_out] /\
  stored t w1 = None /\
  (forall j a, refreshTokens w !! j = Some a -> token a <> t ->
               refreshTokens w1 !! j = Some a) /\
  (stored t w = None -> refreshTokens w1 = refreshTokens w) /\
  responses w2 = responses w1 ++ [invalid_token].
Proof.
  intros Hm Ht Huniq w1 w2.
  assert (Hout : responses w1 = responses w ++ [logged_out] /\
            mongo_up w1 = true /\
            refreshTokens w1 = match stored t w with
                               | Some (id, _) => delete id (refreshTokens w)
                               | None => refreshTokens w
                               end).
  { subst w1. destruct w as [mu us ts n now en d k tr]. unfold stored.
    cbn [mongo_up refreshTokens] in *. subst mu.
    unfold Accounts.handle, logoutUser. cbn [body_refreshToken falsy default].
    rewrite (PostFacts.nonempty_eqb _ Ht). simpl.
    destruct (findOne _ ts) as [[id st]|]; simpl; repeat split; responses_simpl; reflexivity. }
  destruct Hout as (Hresp & Hm1 & Htokens).
  assert (Hgone : stored t w1 = None).
  { unfold stored. apply findOne_None. intros j a Hj. apply String.eqb_neq. intros Ha.
    rewrite Htokens in Hj. destruct (stored t w) as [[id st]|] eqn:Hst.
    - apply lookup_delete_Some in Hj as [Hne Hj].
      apply findOne_Some in Hst as [Hid Htok]. apply String.eqb_eq in Htok.
      apply Hne. exact (Huniq _ _ _ _ Hid Hj Htok Ha).
    - unfold stored in Hst.
      destruct (findOne_is_Some (fun x => String.eqb (token x) t) _ j a Hj)
        as (j' & b & Hsome); [apply String.eqb_eq; exact Ha | congruence]. }
  split; [exact Hresp|]. split; [exact Hgone|]. split; [|split].
  - intros j a Hj Ha. rewrite Htokens. destruct (stored t w) as [[id st]|] eqn:Hst; [|exact Hj].
    apply findOne_Some in Hst as [Hid Htok]. apply String.eqb_eq in Htok.
    rewrite lookup_delete_ne; [exact Hj|]. intros ->. congruence.
  - intros Hnone. rewrite Htokens, Hnone. reflexivity.
  - subst w2. clearbody w1. clear Hresp Htokens. unfold stored in Hgone.
    destruct w1 as [mu us ts n now en d k tr]. cbn [mongo_up refreshTokens] in *. subst mu.
    unfold IdentityService.handle, refreshTokenUser. cbn [body_refreshToken falsy].
    rewrite (PostFacts.nonempty_eqb _ Ht). simpl. rewrite Hgone. simpl.
    responses_simpl. reflexivity.
Qed.

(** X18.  In every state of the store, each of the four controllers
    (register, login, refresh, logout) returns without throwing and sends
    exactly one response; a response with a status of 400 or above has a
    body of the two members [success: false] and [message]. *)
Theorem identity_controllers_answer_once validateR validateL c body w :
  let res := run' 0%nat (controller validateR validateL c body) w in
  fst res = Ok tt /\
  exists a, responses (snd res) = responses w ++ [a] /\
            (400 <= status a -> error_shape (Js.body a) = true).
Proof.
  cbv zeta. destruct w as [mu us ts n now en d k tr].
  destruct c; unfold controller, registerUser, logoutUser, loginUser, refreshTokenUser,
    generateTokens.
  - explore.
  - explore.
  - explore.
  - explore.
Qed.
End Facts.

Import Scenario.Identity.

Lemma registration_refuses_a_taken_name_witness :
  let w1 := Accounts.handle jwt_sign argon2_verify argon2_hash
              (registerUser accept_registration alice_again) registered in
  responses w1 = [user_exists] /\ users w1 = users registered.
Proof.
  pose proof (registration_refuses_a_taken_name jwt_sign argon2_verify argon2_hash
                accept_registration alice_again registered (ObjectId 1) alice) as H.
  destruct H as (Hresp & Husers & _); try reflexivity.
  - left. vm_compute. reflexivity.
  - split; [exact Hresp | exact Husers].
Defined.

Lemma registered_user_can_log_in_witness :
  let w1 := Accounts.handle jwt_sign argon2_verify argon2_hash
              (registerUser accept_registration bob) registered in
  let w2 := IdentityService.handle jwt_sign argon2_verify
              (loginUser accept_all (LoginBody "bob@x.com" "hunter22")) w1 in
  users w1 !! ObjectId 3 = Some (User "bob" "bob@x.com" "argon2:hunter22") /\
  exists access fresh, responses w2 = responses w1 ++ [logged_in access fresh (ObjectId 3)].
Proof.
  pose proof (registered_user_can_log_in jwt_sign argon2_verify argon2_hash
                accept_registration accept_all bob registered "argon2:hunter22") as H.
  destruct H as (_ & Husers & Hlogin).
  - reflexivity.
  - reflexivity.
  - reflexivity.
  - vm_compute. reflexivity.
  - discriminate.
  - vm_compute. discriminate.
  - discriminate.
  - intros j b Hj. unfold registered in Hj. cbn [users] in Hj.
    apply lookup_singleton_Some in Hj as [_ <-]. split; vm_compute; discriminate.
  - reflexivity.
  - vm_compute. reflexivity.
  - vm_compute. reflexivity.
  - vm_compute. reflexivity.
  - split; [|exact Hlogin]. rewrite Husers. apply lookup_insert_eq.
Defined.

Lemma logout_revokes_the_token_witness :
  let w1 := Accounts.handle jwt_sign argon2_verify argon2_hash
              (logoutUser (RefreshBody (Some "t0"))) registered in
  let w2 := IdentityService.handle jwt_sign argon2_verify
              (refreshTokenUser (RefreshBody (Some "t0"))) w1 in
  responses w1 = [logged_out] /\ responses w2 = [logged_out; invalid_token].
Proof.
  pose proof (logout_revokes_the_token jwt_sign argon2_verify argon2_hash registered "t0") as H.
  destruct H as (Hout & _ & _ & _ & Hrefresh).
  - reflexivity.
  - discriminate.
  - intros i j a b Hi Hj _ _. unfold registered in Hi, Hj. cbn [refreshTokens] in Hi, Hj.
    apply lookup_singleton_Some in Hi as [<- _], Hj as [<- _]. reflexivity.
  - split; [exact Hout|]. rewrite Hrefresh, Hout. reflexivity.
Defined.

End AccountsFacts.

(** ** api-gateway *)

Module GatewayFacts.
Import Gateway.

Section Facts.
Variable jwt_verify : string -> string -> option claims.
Variable JWT_SECRET_KEY : string.
Variable upstream : proxied -> outcome response.

Local Abbreviation gateway := (app jwt_verify JWT_SECRET_KEY upstream).


(** What the gateway does with a request the limiter lets pass. *)
Lemma admitted_request r w :
  admitted r w ->
  gateway r w =
  let w := snd (increment (ip r) w) in
  let w := log Info ("Received " +:+ method r +:+ " request to " +:+ originalUrl r) w in
  let w := log Info ("Request body: " +:+ stringify (body r)) w in
  let c := Context r None in
  match route r with
  | Some IdentityService =>
      proxy upstream IdentityService identity_decorator c w unmatched
  | Some PostService =>
      validateToken jwt_verify JWT_SECRET_KEY c w
        (fun c w => proxy upstream PostService json_user_decorator c w unmatched)
  | Some MediaService =>
      validateToken jwt_verify JWT_SECRET_KEY c w
        (fun c w => proxy upstream MediaService media_decorator c w unmatched)
  | Some SearchService =>
      validateToken jwt_verify JWT_SECRET_KEY c w
        (fun c w => proxy upstream SearchService json_user_decorator c w unmatched)
  | None => unmatched c w
  end.
Proof.
  unfold admitted, app, globalRateLimiter. intros Hadm. cbn [req].
  destruct (increment (ip r) w) as [total w1]. cbn [fst snd] in *.
  assert (Hle : (max <? total) = false) by (apply Z.ltb_ge; exact Hadm).
  rewrite Hle. reflexivity.
Qed.

Lemma forwarded_after_logs r w :
  forwarded (log Info ("Request body: " +:+ stringify (body r))
               (log Info ("Received " +:+ method r +:+ " request to " +:+ originalUrl r)
                  (snd (increment (ip r) w)))) = forwarded w.
Proof. destruct w. reflexivity. Qed.

Lemma validateToken_passes r u w next :
  authenticated jwt_verify JWT_SECRET_KEY r u ->
  validateToken jwt_verify JWT_SECRET_KEY (Context r None) w next =
  next (Context r (Some u)) w.
Proof.
  intros (token & Hb & Hne & Hv). unfold validateToken. cbn [req]. rewrite Hb.
  cbn [falsy]. destruct (String.eqb_spec token ""); [contradiction|].
  simpl. rewrite Hv. reflexivity.
Qed.

Lemma validateToken_rejects r w next :
  unauthenticated jwt_verify JWT_SECRET_KEY r ->
  status (fst (validateToken jwt_verify JWT_SECRET_KEY (Context r None) w next)) = 401 /\
  forwarded (snd (validateToken jwt_verify JWT_SECRET_KEY (Context r None) w next)) =
  forwarded w.
Proof.
  intros Hun. unfold validateToken. cbn [req].
  destruct (falsy (bearer_token r)) eqn:Hf.
  - destruct w; split; reflexivity.
  - destruct Hun as [Hun|Hun]; [congruence|]. rewrite Hun. destruct w; split; reflexivity.
Qed.

(** The rejecting half of C5: without a token that verifies, every
    protected prefix answers 401 and forwards nothing. *)
Lemma protected_request_needs_token r w :
  admitted r w -> protected r = true ->
  unauthenticated jwt_verify JWT_SECRET_KEY r ->
  status (fst (gateway r w)) = 401 /\ forwarded (snd (gateway r w)) = forwarded w.
Proof.
  intros Hadm Hprot Hun. rewrite (admitted_request r w Hadm). cbv zeta.
  unfold protected in Hprot.
  destruct (route r) as [[]|]; try discriminate Hprot;
    (edestruct validateToken_rejects as [Hs Hf]; [exact Hun|];
     split; [exact Hs | rewrite Hf; apply forwarded_after_logs]).
Qed.

(** The forwarding half of C5 at the post and the search proxy: the request
    goes upstream with [x-user-id] set to the [userId] of the token. *)
Lemma json_request_forwarded_with_user_id r w u host :
  admitted r w ->
  route r = Some host -> host = PostService \/ host = SearchService ->
  authenticated jwt_verify JWT_SECRET_KEY r u ->
  exists out,
    forwarded (snd (gateway r w)) = forwarded w ++ [out] /\
    target out = host /\
    proxy_headers out !! "x-user-id" = Some (userId u).
Proof.
  intros Hadm Hroute Hhost Hauth. rewrite (admitted_request r w Hadm). cbv zeta.
  rewrite Hroute.
  exists (Proxied host (proxyReqPathResolver r)
            (<["x-user-id" := userId u]>
               (<["content-type" := "application/json"]> (headers r)))).
  split; [|split; [reflexivity|apply lookup_insert_eq]].
  destruct Hhost as [-> | ->]; rewrite (validateToken_passes r u _ _ Hauth);
    unfold proxy, json_user_decorator, user_userId; cbn [user req];
    destruct (upstream _); destruct w; reflexivity.
Qed.

(** C5 at the media proxy.  A request below [/v1/media] whose token
    verifies and which carries no [Content-Type] header is not forwarded:
    the decorator of the proxy throws when it reads the header, and the
    gateway answers 500. *)
Theorem media_request_without_content_type_is_not_forwarded r w u :
  admitted r w ->
  route r = Some MediaService ->
  authenticated jwt_verify JWT_SECRET_KEY r u ->
  headers r !! "content-type" = None ->
  fst (gateway r w) =
    Response 500
      (JObj [("message", JStr "Internal server error");
             ("error", JStr "Cannot read properties of undefined (reading 'startsWith')")]) /\
  forwarded (snd (gateway r w)) = forwarded w.
Proof.
  intros Hadm Hroute Hauth Hct. rewrite (admitted_request r w Hadm). cbv zeta.
  rewrite Hroute, (validateToken_passes r u _ _ Hauth).
  unfold proxy, media_decorator, user_userId. cbn [user req]. rewrite Hct.
  destruct w; split; reflexivity.
Qed.

(** C9.  When the connection to the upstream of the post or the search
    proxy fails with the error [e], the gateway answers 500 with the body
    [{message: "Internal server error", error: e.message}]: the body has no
    [success] member and carries the message of the upstream error.  The
    handler does not consult [NODE_ENV], so this is its answer in every
    mode. *)
Theorem upstream_failure_exposes_error_message r w u host e :
  admitted r w ->
  route r = Some host -> host = PostService \/ host = SearchService ->
  authenticated jwt_verify JWT_SECRET_KEY r u ->
  (forall out, upstream out = Thrown e) ->
  fst (gateway r w) =
    Response 500 (JObj [("message", JStr "Internal server error");
                        ("error", JStr (message e))]) /\
  error_shape (Js.body (fst (gateway r w))) = false.
Proof.
  intros Hadm Hroute Hhost Hauth Hdown. rewrite (admitted_request r w Hadm). cbv zeta.
  rewrite Hroute.
  destruct Hhost as [-> | ->]; rewrite (validateToken_passes r u _ _ Hauth);
    unfold proxy, json_user_decorator, user_userId; cbn [user req];
    rewrite Hdown; split; reflexivity.
Qed.
End Facts.

(** The central error handler, by contrast, withholds the message of the
    error in production. *)
Lemma errorHandler_withholds_message_in_production e w :
  Js.body (fst (errorHandler "production" e w)) =
  JObj [("message", JStr "Internal Server Error")].
Proof. reflexivity. Qed.

Import Scenario.Edge.


Lemma good_token : authenticated jwt_verify "secret" list_media (Claims "u1" "alice").
Proof. exists "good". repeat split. discriminate. Qed.

Lemma media_request_without_content_type_is_not_forwarded_witness :
  status (fst (app jwt_verify "secret" up list_media idle)) = 500 /\
  forwarded (snd (app jwt_verify "secret" up list_media idle)) = [].
Proof.
  pose proof (media_request_without_content_type_is_not_forwarded
                jwt_verify "secret" up list_media idle (Claims "u1" "alice")) as H.
  destruct H as (Hres & Hfwd).
  - unfold admitted. vm_compute. discriminate.
  - vm_compute. reflexivity.
  - exact good_token.
  - vm_compute. reflexivity.
  - split; [rewrite Hres; reflexivity | exact Hfwd].
Defined.

Lemma upstream_failure_exposes_error_message_witness :
  Js.body (fst (app jwt_verify "secret" down list_posts idle)) =
  JObj [("message", JStr "Internal server error");
        ("error", JStr "connect ECONNREFUSED 10.0.0.5:3002")].
Proof.
  pose proof (upstream_failure_exposes_error_message
                jwt_verify "secret" down list_posts idle (Claims "u1" "alice")
                PostService refused) as H.
  destruct H as (Hres & _).
  - unfold admitted. vm_compute. discriminate.
  - vm_compute. reflexivity.
  - left. reflexivity.
  - exists "good". repeat split. discriminate.
  - intros out. reflexivity.
  - rewrite Hres. reflexivity.
Defined.


(** *** The token check *)

Lemma split_one_word sep s :
  ~ In sep (list_ascii_of_string s) -> split sep s = [s].
Proof.
  induction s as [|c s IH]; intros Hs; [reflexivity|]. cbn [split].
  destruct (Ascii.eqb_spec c sep) as [->|Hne]; [exfalso; apply Hs; left; reflexivity|].
  rewrite IH; [reflexivity|]. intros Hin. apply Hs. right. exact Hin.
Qed.

Lemma split_first_word sep a b :
  ~ In sep (list_ascii_of_string a) ->
  split sep (a +:+ String sep b) = a :: split sep b.
Proof.
  induction a as [|c a IH]; intros Ha.
  - change ("" +:+ String sep b) with (String sep b). cbn [split].
    rewrite Ascii.eqb_refl. reflexivity.
  - change (String c a +:+ String sep b) with (String c (a +:+ String sep b)). cbn [split].
    destruct (Ascii.eqb_spec c sep) as [->|Hne]; [exfalso; apply Ha; left; reflexivity|].
    rewrite IH; [reflexivity|]. intros Hin. apply Ha. right. exact Hin.
Qed.

Section More.
Variable jwt_verify : string -> string -> option claims.
Variable JWT_SECRET_KEY : string.
Variable upstream : proxied -> outcome response.

Local Abbreviation gateway := (app jwt_verify JWT_SECRET_KEY upstream).
Local Abbreviation check := (validateToken jwt_verify JWT_SECRET_KEY).

(** X19.  [validateToken] takes the second space-separated word of the
    [Authorization] header as the token and never looks at the first: a
    header [<scheme> <token>] passes for any scheme word, [Bearer] or not,
    when the token verifies, and the decoded payload becomes [req.user]. *)
Theorem validateToken_ignores_the_scheme r w next scheme token u :
  one_word scheme -> one_word token -> token <> "" ->
  headers r !! "authorization" = Some (scheme +:+ " " +:+ token) ->
  jwt_verify token JWT_SECRET_KEY = Some u ->
  check (Context r None) w next = next (Context r (Some u)) w.
Proof.
  intros Hs Ht Hne Hh Hv. apply validateToken_passes. exists token.
  split; [|split; assumption].
  unfold bearer_token. rewrite Hh.
  destruct (String.eqb_spec (scheme +:+ " " +:+ token) "") as [Hempty|_].
  - destruct scheme; discriminate Hempty.
  - change (scheme +:+ " " +:+ token) with (scheme +:+ String " " token).
    rewrite split_first_word by exact Hs. rewrite split_one_word by exact Ht. reflexivity.
Qed.




End More.

(** *** The window of the limiter *)

Section Limiter.
Variable jwt_verify : string -> string -> option claims.
Variable JWT_SECRET_KEY : string.
Variable upstream : proxied -> outcome response.

Local Abbreviation gateway := (app jwt_verify JWT_SECRET_KEY upstream).







End Limiter.

(** *** The path that goes upstream *)

Lemma lower_ascii_slash c : lower_ascii c = "/"%char -> c = "/"%char.
Proof. destruct c as [[] [] [] [] [] [] [] []]; vm_compute; congruence. Qed.

Lemma lower_ascii_one c : lower_ascii c = "1"%char -> c = "1"%char.
Proof. destruct c as [[] [] [] [] [] [] [] []]; vm_compute; congruence. Qed.

Lemma lower_ascii_v c : lower_ascii c = "v"%char -> c = "v"%char \/ c = "V"%char.
Proof.
  destruct c as [[] [] [] [] [] [] [] []]; vm_compute; intros H;
    first [discriminate H | left; reflexivity | right; reflexivity].
Qed.

Lemma prefix_cons c p d s :
  String.prefix (String c p) (String d s) = true -> c = d /\ String.prefix p s = true.
Proof. cbn [String.prefix]. destruct (ascii_dec c d); [auto|discriminate]. Qed.

(** A path below one of the mounts reads [/v1] or [/V1] at its start. *)
Lemma mounted_below_v1 q r :
  mounted ("/v1" +:+ q) r = true ->
  exists c rest, originalUrl r = String "/" (String c (String "1" rest)) /\
                 (c = "v"%char \/ c = "V"%char).
Proof.
  unfold mounted. intros H.
  assert (Hp : String.prefix "/v1" (lower (path_of (originalUrl r))) = true).
  { apply orb_true_iff in H as [H|H].
    - apply String.eqb_eq in H. rewrite H. apply PostFacts.startsWith_append.
    - unfold startsWith in H. destruct (lower (path_of (originalUrl r))) as [|a [|b [|c s]]];
        try discriminate H.
      + apply prefix_cons in H as [_ H]. discriminate H.
      + apply prefix_cons in H as [_ H]. apply prefix_cons in H as [_ H]. discriminate H.
      + apply prefix_cons in H as [<- H]. apply prefix_cons in H as [<- H].
        apply prefix_cons in H as [<- H]. cbn [String.prefix].
        repeat (destruct (ascii_dec _ _); [|congruence]). destruct s; reflexivity. }
  clear H. destruct (originalUrl r) as [|c1 url]; [discriminate Hp|].
  cbn [path_of] in Hp. destruct (Ascii.eqb c1 "?"); [discriminate Hp|].
  cbn [lower] in Hp. apply prefix_cons in Hp as [H1 Hp]. symmetry in H1.
  apply lower_ascii_slash in H1. subst c1.
  destruct url as [|c2 url]; [discriminate Hp|].
  cbn [path_of] in Hp. destruct (Ascii.eqb c2 "?"); [discriminate Hp|].
  cbn [lower] in Hp. apply prefix_cons in Hp as [H2 Hp]. symmetry in H2.
  apply lower_ascii_v in H2.
  destruct url as [|c3 url]; [discriminate Hp|].
  cbn [path_of] in Hp. destruct (Ascii.eqb c3 "?"); [discriminate Hp|].
  cbn [lower] in Hp. apply prefix_cons in Hp as [H3 _]. symmetry in H3.
  apply lower_ascii_one in H3. subst c3.
  exists c2, url. split; [reflexivity | exact H2].
Qed.

(** X25.  The mounts match the path without regard to case, the rewrite
    of the path does not: a routed request whose URL starts with [/v1]
    goes upstream with [/api] in place of [/v1] and the rest, query string
    included, unchanged; a routed request whose URL starts with [/V1] goes
    upstream with its URL as it is. *)
Theorem mount_ignores_case_but_rewrite_does_not r host hs :
  route r = Some host ->
  (startsWith "/v1" (originalUrl r) = true ->
   exists rest, originalUrl r = "/v1" +:+ rest /\
                path (outgoing host r hs) = "/api" +:+ rest) /\
  (startsWith "/v1" (originalUrl r) = false ->
   startsWith "/V1" (originalUrl r) = true /\
   path (outgoing host r hs) = originalUrl r).
Proof.
  intros Hroute.
  assert (Hurl : exists c rest, originalUrl r = String "/" (String c (String "1" rest)) /\
                                (c = "v"%char \/ c = "V"%char)).
  { unfold route in Hroute.
    destruct (mounted "/v1/auth" r) eqn:H1; [exact (mounted_below_v1 "/auth" r H1)|].
    destruct (mounted "/v1/posts" r) eqn:H2; [exact (mounted_below_v1 "/posts" r H2)|].
    destruct (mounted "/v1/media" r) eqn:H3; [exact (mounted_below_v1 "/media" r H3)|].
    destruct (mounted "/v1/search" r) eqn:H4; [exact (mounted_below_v1 "/search" r H4)|].
    discriminate Hroute. }
  destruct Hurl as (c & rest & Hurl & [-> | ->]);
    unfold outgoing, proxyReqPathResolver; cbn [path]; rewrite Hurl; split; intros H.
  - exists rest. split; reflexivity.
  - change (String "/" (String "v" (String "1" rest))) with ("/v1" +:+ rest) in H.
    rewrite PostFacts.startsWith_append in H. discriminate H.
  - change (String "/" (String "V" (String "1" rest))) with ("/V1" +:+ rest) in H.
    unfold startsWith in H. destruct rest; discriminate H.
  - split; [|reflexivity].
    change (String "/" (String "V" (String "1" rest))) with ("/V1" +:+ rest).
    apply PostFacts.startsWith_append.
Qed.


Lemma validateToken_ignores_the_scheme_witness :
  validateToken jwt_verify "secret" (Context other_scheme None) idle proceed =
  proceed (Context other_scheme (Some (Claims "u1" "alice"))) idle.
Proof.
  apply (validateToken_ignores_the_scheme jwt_verify "secret" other_scheme idle proceed
           "Token" "good" (Claims "u1" "alice")).
  - intros H. vm_compute in H. repeat (destruct H as [H|H]; [discriminate H|]). exact H.
  - intros H. vm_compute in H. repeat (destruct H as [H|H]; [discriminate H|]). exact H.
  - discriminate.
  - reflexivity.
  - reflexivity.
Defined.






Lemma mount_ignores_case_but_rewrite_does_not_witness :
  route capitals = Some PostService /\
  path (outgoing PostService capitals ∅) = "/V1/posts/all-posts".
Proof.
  pose proof (mount_ignores_case_but_rewrite_does_not capitals PostService ∅) as H.
  destruct H as (_ & Hsame); [vm_compute; reflexivity|].
  split; [vm_compute; reflexivity|]. apply Hsame. reflexivity.
Defined.

End GatewayFacts.

(** ** search-service *)

Module SearchFacts.
Import SearchService.

Ltac responses_simpl :=
  unfold responses; cbn [trace];
  repeat (rewrite ?omap_app, ?app_nil_r, <- ?app_assoc; cbn [omap list_omap app]).



Import Scenario.Searches.


End SearchFacts.

(** ** The rate limiters of the services *)

Module LimitsFacts.
Import Limits.

Lemma consumed_log l m w : consumed (log l m w) = consumed w.
Proof. destruct w; reflexivity. Qed.
Lemma now_log l m w : now (log l m w) = now w.
Proof. destruct w; reflexivity. Qed.
Lemma redis_up_log l m w : redis_up (log l m w) = redis_up w.
Proof. destruct w; reflexivity. Qed.

(** What a guard does with a request that names its caller: it counts
    the request, and hands it on or turns it away as [consume] decides. *)
Lemma guard_consumes g req w next :
  identified g req ->
  let counted := consume (guard_limiter g) (guard_key g req) w in
  (fst counted = Ok tt -> guard_middleware g req w next = next req (snd counted)) /\
  (forall e, fst counted = Thrown e ->
     fst (guard_middleware g req w next) = guard_rejection g /\
     consumed (snd (guard_middleware g req w next)) = consumed (snd counted) /\
     now (snd (guard_middleware g req w next)) = now (snd counted) /\
     redis_up (snd (guard_middleware g req w next)) = redis_up (snd counted)).
Proof.
  intros Hid. unfold identified in Hid.
  destruct g; cbn [per_user] in Hid; try specialize (Hid eq_refl);
    cbn [guard_middleware guard_limiter guard_key per_user guard_rejection];
    unfold Search.global, Search.search, Media.global, Media.upload, Identity.global,
      Post.global; rewrite ?Hid; cbv zeta;
    match goal with |- context [consume ?l ?k w] => destruct (consume l k w) as [[[]|e0] w1] end;
    cbn [fst snd]; (split; [intros H; first [reflexivity | discriminate H]|]);
    intros e H; first [discriminate H | rewrite consumed_log, now_log, redis_up_log; repeat split].
Qed.





(** X27.  When Redis is unreachable, each of the six limiting middlewares
    (the global limiters of the identity, post, media and search services,
    the search limiter and the upload limiter) answers a request that names
    its caller with 429 and its "too many requests" body, as if the caller
    had used up its points, and does not hand the request on. *)
Theorem redis_outage_is_answered_as_rate_limit g req w next :
  redis_up w = false -> identified g req ->
  fst (guard_middleware g req w next) = guard_rejection g /\
  consumed (snd (guard_middleware g req w next)) = consumed w.
Proof.
  intros Hr Hid. destruct (guard_consumes g req w next Hid) as [_ Hrej].
  assert (Hc : consume (guard_limiter g) (guard_key g req) w = (Thrown redis_error, w))
    by (unfold consume; rewrite Hr; reflexivity).
  rewrite Hc in Hrej. destruct (Hrej redis_error eq_refl) as (H1 & H2 & _).
  split; assumption.
Qed.

(** X28.  The search limiter and the upload limiter answer a request
    without an [x-user-id] header, or with an empty one, with 401 and a
    body of the members [success: false] and [message]; they count
    nothing, log nothing and do not hand the request on. *)
Theorem per_user_guard_needs_a_user_id g req w next :
  per_user g = true -> falsy (headers req !! "x-user-id") = true ->
  status (fst (guard_middleware g req w next)) = 401 /\
  error_shape (body (fst (guard_middleware g req w next))) = true /\
  snd (guard_middleware g req w next) = w.
Proof.
  intros Hg Hf. destruct g; try discriminate Hg;
    cbn [guard_middleware]; unfold Search.search, Media.upload; rewrite Hf;
    repeat split.
Qed.




Import Scenario.Guards.

Lemma redis_outage_is_answered_as_rate_limit_witness :
  fst (Search.search by_user outage proceed) =
  Response 429 (JObj [("success", JBool false);
                      ("message", JStr "Too many search requests. Please try again later.")]).
Proof.
  pose proof (redis_outage_is_answered_as_rate_limit SearchPerUser by_user outage proceed) as H.
  destruct H as (Hres & _).
  - reflexivity.
  - intros _. reflexivity.
  - exact Hres.
Defined.

Lemma per_user_guard_needs_a_user_id_witness :
  status (fst (Media.upload nameless calm proceed)) = 401 /\
  snd (Media.upload nameless calm proceed) = calm.
Proof.
  pose proof (per_user_guard_needs_a_user_id MediaUpload nameless calm proceed) as H.
  destruct H as (Hstatus & _ & Hsame); try reflexivity.
  split; [exact Hstatus | exact Hsame].
Defined.



End LimitsFacts.

(** ** post-service: the server *)

Module PostServerFacts.
Import PostServer.

(** X30.  [server.js] mounts [readLimiter] and [writeLimiter] after the
    router: a request that one of the four routes serves is answered by
    [authenticateRequest] or by the controller of the route, and what the
    server answers and does for it is the same whatever the two limiters
    are, so neither of them ever counts or rejects such a request. *)
Theorem routed_requests_never_reach_the_route_limiters
    validate authenticateRequest readLimiter writeLimiter readLimiter' writeLimiter' rid r w :
  routed r ->
  app validate authenticateRequest readLimiter writeLimiter rid r w =
  app validate authenticateRequest readLimiter' writeLimiter' rid r w.
Proof.
  intros (rest & Hbelow & Hroute). unfold app, globalratelimiter.
  destruct (Limits.consume _ _ _) as [[[]|e] l]; [|reflexivity].
  rewrite Hbelow. unfold postRoutes.
  destruct (authenticateRequest r _) as [[res|userId] w1]; [reflexivity|].
  destruct (dispatch (method r) rest) as [[route id]|]; [reflexivity|congruence].
Qed.

(** A request below [/api/posts] that no route serves does reach
    [readLimiter], once the global limiter and [authenticateRequest] have
    let it pass. *)
Theorem unrouted_requests_reach_the_read_limiter
    validate authenticateRequest readLimiter writeLimiter rid r w rest userId w1 l :
  Limits.consume Limits.Post.globalratelimiter (ip r) (limits w) = (Ok tt, l) ->
  below "/api/posts" (path r) = Some rest -> dispatch (method r) rest = None ->
  authenticateRequest r (with_limits l w) = (inr userId, w1) ->
  app validate authenticateRequest readLimiter writeLimiter rid r w =
  readLimiter r w1 (fun r w => write_guard writeLimiter r w not_found).
Proof.
  intros Hc Hbelow Hroute Hauth. unfold app, globalratelimiter. rewrite Hc, Hbelow.
  unfold postRoutes. rewrite Hauth, Hroute. reflexivity.
Qed.

Import Scenario.Server.

Lemma routed_requests_never_reach_the_route_limiters_witness :
  app Scenario.Posts.accept_all authenticateRequest open_limiter open_limiter 1 listing start =
  app Scenario.Posts.accept_all authenticateRequest closed_limiter closed_limiter 1 listing start.
Proof.
  apply routed_requests_never_reach_the_route_limiters.
  exists "/all-posts". split; [vm_compute; reflexivity | vm_compute; discriminate].
Defined.

End PostServerFacts.
